(** * hstratum: connection, job and share engine

    A shallow embedding of the primitives of [lib/index.js] (classes
    [Connection], [ClientPacket], [Submission], [Job]), of [lib/util.js]
    and of the constant of [constants.js], with the properties of the
    design document that concern framing, submission validation,
    duplicate detection, vardiff retargeting and job serialisation.

    Conventions.
    - A JavaScript string is the list of its UTF-16 code units.
    - A JavaScript number is an IEEE-754 binary64 value ([spec_float] with
      precision 53 and maximal exponent 1024).  Counters and millisecond
      clocks, which only ever hold integers far below 2^53, are kept in [Z].
    - A method that mutates [this] and may throw is a function from the
      object to an outcome and the object as the throw or return left it.
    - Logger calls have no effect on the objects and are left out. *)

From Stdlib Require Import ZArith NArith List String Ascii Bool Lia DecimalString.
From Stdlib Require Import Floats.SpecFloat.
From stdpp Require Import gmap.

Import ListNotations.
Local Open Scope Z_scope.

(* ===================================================================== *)
(** ** The JavaScript values the code handles *)
(* ===================================================================== *)

Module JS.

(** *** Strings *)

Definition jsstring := list N.

Definition lit (s : string) : jsstring :=
  map N_of_ascii (list_ascii_of_string s).

Definition strlen (s : jsstring) : Z := Z.of_nat (length s).

(** [Array.prototype.join] on an array of strings. *)
Fixpoint join (sep : jsstring) (parts : list jsstring) : jsstring :=
  match parts with
  | [] => []
  | [p] => p
  | p :: rest => p ++ sep ++ join sep rest
  end.

(** *** Numbers (binary64) *)

Definition number := spec_float.

Definition prec : Z := 53.
Definition emax : Z := 1024.

Definition of_Z (z : Z) : number := binary_normalize prec emax z 0 false.

Definition NaN : number := S754_nan.

Definition fmul : number -> number -> number := SFmul prec emax.
Definition fdiv : number -> number -> number := SFdiv prec emax.

(** [a < b], [a > b], [a <= b], [a === b] on numbers. *)
Definition lt (a b : number) : bool := SFltb a b.
Definition gt (a b : number) : bool := SFltb b a.
Definition le (a b : number) : bool := SFleb a b.
Definition strict_eq (a b : number) : bool := SFeqb a b.

(** [ToUint32]: NaN, zeros and infinities go to 0, every other value is
    truncated toward zero and reduced modulo 2^32.  This is [x >>> 0]. *)
Definition ToUint32 (x : number) : Z :=
  match x with
  | S754_finite s m e =>
      let mag := Z.shiftl (Z.pos m) e in
      (if s then - mag else mag) mod 2 ^ 32
  | _ => 0
  end.

Definition ushr0 (x : number) : number := of_Z (ToUint32 x).

(** [Math.min(a, b)]: NaN if either is NaN, -0 below +0. *)
Definition Math_min (a b : number) : number :=
  match a, b with
  | S754_nan, _ | _, S754_nan => S754_nan
  | S754_zero sa, S754_zero sb => S754_zero (sa || sb)
  | _, _ => if lt b a then b else a
  end.

(** [Math.max(a, b)]: NaN if either is NaN, +0 above -0. *)
Definition Math_max (a b : number) : number :=
  match a, b with
  | S754_nan, _ | _, S754_nan => S754_nan
  | S754_zero sa, S754_zero sb => S754_zero (sa && sb)
  | _, _ => if gt b a then b else a
  end.

(** *** Values *)

#[warnings="-register-all"]
Inductive value :=
| VUndefined
| VNull
| VBool (b : bool)
| VNum (n : number)
| VStr (s : jsstring)
| VArr (items : list value)
| VObj (fields : list (jsstring * value)).

Inductive jstype := TUndefined | TObject | TBoolean | TNumber | TString.

Definition typeof (v : value) : jstype :=
  match v with
  | VUndefined => TUndefined
  | VNull => TObject
  | VBool _ => TBoolean
  | VNum _ => TNumber
  | VStr _ => TString
  | VArr _ => TObject
  | VObj _ => TObject
  end.

Definition arrlen (arr : list value) : Z := Z.of_nat (length arr).

(** [arr[i]]: out of range reads give [undefined]. *)
Definition index (arr : list value) (i : nat) : value := nth i arr VUndefined.

(** *** Exceptions *)

Inductive error :=
| AssertionError (message : jsstring)
| SyntaxError
| TypeError
| Error.

Inductive result (A : Type) :=
| Ok (a : A)
| Throw (e : error).
Arguments Ok {A} a.
Arguments Throw {A} e.

Definition bind {A B} (r : result A) (k : A -> result B) : result B :=
  match r with
  | Ok a => k a
  | Throw e => Throw e
  end.

(** [assert(cond, message)] of bsert. *)
Definition assert (cond : bool) (message : jsstring) : result unit :=
  if cond then Ok tt else Throw (AssertionError message).

Definition default_message : jsstring := lit "Assertion failed.".

(** *** Regular expressions

    The four literals of the sources are sequences of single-character
    atoms, one of them under [+], with optional anchors.  [match_here]
    is the backtracking matcher at a fixed position: it returns what is
    left of the input after the first match in priority order (greedy). *)

Inductive atom :=
| Chr (cs : N -> bool)
| Plus (cs : N -> bool)
| Eol.

Record regex := { re_bol : bool; re_body : list atom }.

Fixpoint match_here (p : list atom) (s : jsstring) {struct p} : option jsstring :=
  match p with
  | [] => Some s
  | Chr cs :: p' =>
      match s with
      | c :: s' => if cs c then match_here p' s' else None
      | [] => None
      end
  | Plus cs :: p' =>
      (fix more (s : jsstring) : option jsstring :=
         match s with
         | c :: s' =>
             if cs c then
               match more s' with
               | Some r => Some r
               | None => match_here p' s'
               end
             else None
         | [] => None
         end) s
  | Eol :: p' =>
      match s with
      | [] => match_here p' s
      | _ :: _ => None
      end
  end.

(** Leftmost match: the text before it and the text after it. *)
Fixpoint search (p : list atom) (s : jsstring) : option (jsstring * jsstring) :=
  match match_here p s with
  | Some r => Some ([], r)
  | None =>
      match s with
      | [] => None
      | c :: s' =>
          match search p s' with
          | Some (pre, post) => Some (c :: pre, post)
          | None => None
          end
      end
  end.

(** [re.test(s)] for a regex without the [g] flag. *)
Definition test (re : regex) (s : jsstring) : bool :=
  if re_bol re then
    match match_here (re_body re) s with Some _ => true | None => false end
  else
    match search (re_body re) s with Some _ => true | None => false end.

(** [s.replace(re, repl)] for a regex with the [g] flag and a
    replacement without [$]: every match, left to right, gives way to
    [repl]; after an empty match the scan moves on by one code unit. *)
Fixpoint replace_go (fuel : nat) (p : list atom) (repl s : jsstring) : jsstring :=
  match fuel with
  | O => s
  | S fuel' =>
      match s with
      | [] => match match_here p [] with Some _ => repl | None => [] end
      | c :: s' =>
          match match_here p s with
          | Some r =>
              if (length r <? length s)%nat
              then repl ++ replace_go fuel' p repl r
              else repl ++ c :: replace_go fuel' p repl s'
          | None => c :: replace_go fuel' p repl s'
          end
      end
  end.

Definition replace (re : regex) (repl s : jsstring) : jsstring :=
  replace_go (S (length s)) (re_body re) repl s.

(** [s.split(re)]: [piece] is the text since the last separator.  A
    match that is empty and starts where the last separator ended does
    not split. *)
Fixpoint split_go (fuel : nat) (p : list atom) (piece s : jsstring) : list jsstring :=
  match fuel with
  | O => [piece ++ s]
  | S fuel' =>
      match s with
      | [] => [piece]
      | c :: s' =>
          match match_here p s with
          | Some r =>
              if (length r =? length s)%nat && (length piece =? 0)%nat
              then split_go fuel' p (piece ++ [c]) s'
              else piece :: split_go fuel' p [] r
          | None => split_go fuel' p (piece ++ [c]) s'
          end
      end
  end.

Definition split (re : regex) (s : jsstring) : list jsstring :=
  match s, match_here (re_body re) [] with
  | [], Some _ => []
  | _, _ => split_go (2 * length s + 2) (re_body re) [] s
  end.

(** Case folding of the [i] flag (without [u]): a code unit is compared
    through its upper case, and a code unit of 128 or more never folds
    to one below 128.  All pattern characters of the sources are ASCII. *)
Definition ascii_upper (c : N) : N :=
  if ((97 <=? c) && (c <=? 122))%N then (c - 32)%N else c.

Definition ci_char (p : N) : N -> bool :=
  fun c => ((c <? 128) && (ascii_upper c =? ascii_upper p))%N.

(** A class range [lo-hi] made of digits only or of lower-case letters
    only, under the [i] flag. *)
Definition ci_range (lo hi : N) : N -> bool :=
  fun c => ((c <? 128) && (ascii_upper lo <=? ascii_upper c)
            && (ascii_upper c <=? ascii_upper hi))%N.

Definition cs_or (f g : N -> bool) : N -> bool := fun c => f c || g c.

Definition exactly (p : N) : N -> bool := fun c => (c =? p)%N.

(** *** [parseInt(s, 16)]

    Leading white space is skipped, then an optional sign, then an
    optional [0x] or [0X]; the longest run of hexadecimal digits that
    follows is the value, and an empty run gives NaN. *)

Definition is_whitespace (c : N) : bool :=
  ((c =? 9) || (c =? 10) || (c =? 11) || (c =? 12) || (c =? 13) || (c =? 32)
   || (c =? 160) || (c =? 5760) || ((8192 <=? c) && (c <=? 8202))
   || (c =? 8232) || (c =? 8233) || (c =? 8239) || (c =? 8287)
   || (c =? 12288) || (c =? 65279))%N.

Fixpoint trim_start (s : jsstring) : jsstring :=
  match s with
  | c :: s' => if is_whitespace c then trim_start s' else s
  | [] => []
  end.

Definition hex_digit_value (c : N) : option Z :=
  if ((48 <=? c) && (c <=? 57))%N then Some (Z.of_N c - 48)
  else if ((97 <=? c) && (c <=? 102))%N then Some (Z.of_N c - 87)
  else if ((65 <=? c) && (c <=? 70))%N then Some (Z.of_N c - 55)
  else None.

(** The digits read so far ([seen]) with their value ([acc]). *)
Fixpoint hex_prefix (s : jsstring) (seen : bool) (acc : Z) : option Z :=
  match s with
  | c :: s' =>
      match hex_digit_value c with
      | Some d => hex_prefix s' true (16 * acc + d)
      | None => if seen then Some acc else None
      end
  | [] => if seen then Some acc else None
  end.

Definition parseInt16 (s : jsstring) : number :=
  let s := trim_start s in
  let '(neg, s) :=
    match s with
    | 45%N :: s' => (true, s')
    | 43%N :: s' => (false, s')
    | _ => (false, s)
    end in
  let s :=
    match s with
    | 48%N :: 120%N :: s' => s'
    | 48%N :: 88%N :: s' => s'
    | _ => s
    end in
  match hex_prefix s false 0 with
  | Some m => binary_normalize prec emax (if neg then - m else m) 0 neg
  | None => NaN
  end.

(** *** [Number.prototype.toString(16)] on an integer, [Buffer.toString("hex")] *)

Definition hex_char (d : Z) : N :=
  if d <? 10 then Z.to_N (48 + d) else Z.to_N (87 + d).

(** [n] hexadecimal digits of [z], most significant first. *)
Fixpoint hex_digits (n : nat) (z : Z) : jsstring :=
  match n with
  | O => []
  | S n' => hex_digits n' (z / 16) ++ [hex_char (z mod 16)]
  end.

Fixpoint hex_width (fuel : nat) (z : Z) : nat :=
  match fuel with
  | O => O
  | S fuel' => if z <? 16 then 1%nat else S (hex_width fuel' (z / 16))
  end.

(** For [0 <= z]: no leading zero, ["0"] for zero. *)
Definition toString16 (z : Z) : jsstring :=
  hex_digits (hex_width (Z.to_nat (Z.log2_up (z + 2))) z) z.

Definition Buffer := list Byte.byte.

Definition byte_hex (b : Byte.byte) : jsstring :=
  hex_digits 2 (Z.of_N (Byte.to_N b)).

Definition Buffer_toString_hex (b : Buffer) : jsstring :=
  concat (map byte_hex b).

(** Truthiness, as in [if (v)]. *)
Definition truthy (v : value) : bool :=
  match v with
  | VUndefined | VNull => false
  | VBool b => b
  | VNum (S754_zero _) | VNum S754_nan => false
  | VNum _ => true
  | VStr [] => false
  | VStr _ => true
  | VArr _ | VObj _ => true
  end.

(** [v.key] for the keys [id], [method] and [params], none of which is
    on a prototype: a property of an object literal is looked up, any
    other value but [null] and [undefined] answers [undefined]. *)
Fixpoint assoc (key : jsstring) (fields : list (jsstring * value)) : value :=
  match fields with
  | [] => VUndefined
  | (k, v) :: rest => if decide (k = key) then v else assoc key rest
  end.

Definition get_prop (v : value) (key : jsstring) : result value :=
  match v with
  | VUndefined | VNull => Throw TypeError
  | VObj fields => Ok (assoc key fields)
  | _ => Ok VUndefined
  end.

End JS.

Import JS.

Notation "x <- r ;; k" := (bind r (fun x => k))
  (at level 100, r at next level, right associativity).
Notation "r ;;; k" := (bind r (fun _ => k))
  (at level 100, right associativity).

(* ===================================================================== *)
(** ** constants.js *)
(* ===================================================================== *)

Module constants.

Definition NONCE_SIZE : Z := 4.

End constants.

(* ===================================================================== *)
(** ** lib/util.js *)
(* ===================================================================== *)

Module util.

Definition isUsername (username : value) : bool :=
  match username with
  | VStr s => (strlen s >? 0) && (strlen s <=? 100)
  | _ => false
  end.

Definition isJob (id : value) : bool :=
  match id with
  | VStr s => (strlen s >=? 12) && (strlen s <=? 21)
  | _ => false
  end.

(** The literal [/^[0-9a-f]$/i]. *)
Definition hex_class : N -> bool := cs_or (ci_range 48 57) (ci_range 97 102).

Definition re_isHex : regex :=
  {| re_bol := true; re_body := [Chr hex_class; Eol] |}.

Definition isHex (str : value) : bool :=
  match str with
  | VStr s => (Z.rem (strlen s) 2 =? 0) && test re_isHex s
  | _ => false
  end.

Definition isSID (sid : value) : bool :=
  match sid with
  | VStr s => (strlen s =? 8) && isHex sid
  | _ => false
  end.

Definition isPassword (password : value) : bool :=
  match password with
  | VStr s => (strlen s >? 0) && (strlen s <=? 255)
  | _ => false
  end.

Definition isAgent (agent : value) : bool :=
  match agent with
  | VStr s => (strlen s >? 0) && (strlen s <=? 255)
  | _ => false
  end.

(** [num >>> 0 === num] holds of the integers of [0, 2^32) (and of -0);
    such a number prints in at most eight hexadecimal digits. *)
Definition hex32 (num : number) : result jsstring :=
  assert (strict_eq (ushr0 num) num) default_message ;;;
  let num := toString16 (ToUint32 num) in
  match length num with
  | 1%nat => Ok (lit "0000000" ++ num)
  | 2%nat => Ok (lit "000000" ++ num)
  | 3%nat => Ok (lit "00000" ++ num)
  | 4%nat => Ok (lit "0000" ++ num)
  | 5%nat => Ok (lit "000" ++ num)
  | 6%nat => Ok (lit "00" ++ num)
  | 7%nat => Ok (lit "0" ++ num)
  | 8%nat => Ok num
  | _ => Throw Error
  end.

End util.

(* ===================================================================== *)
(** ** lib/index.js: ClientPacket and Submission *)
(* ===================================================================== *)

Module ClientPacket.

Record t := { id : value; method : jsstring; params : list value }.

Definition new : t :=
  {| id := VNull; method := lit "unknown"; params := [] |}.

Section FromRaw.

(** [JSON.parse] of the runtime: [None] when it throws a [SyntaxError]. *)
Variable JSON_parse : jsstring -> option value.

Definition fromRaw (json : jsstring) : result t :=
  let packet := new in
  msg <- match JSON_parse json with Some v => Ok v | None => Throw SyntaxError end ;;
  msg_id <- get_prop msg (lit "id") ;;
  packet <-
    match msg_id with
    | VUndefined | VNull => Ok packet
    | _ =>
        assert (match typeof msg_id with TString | TNumber => true | _ => false end)
               default_message ;;;
        Ok {| id := msg_id; method := method packet; params := params packet |}
    end ;;
  msg_method <- get_prop msg (lit "method") ;;
  match msg_method with
  | VStr m =>
      assert (strlen m <=? 50) default_message ;;;
      let packet := {| id := id packet; method := m; params := params packet |} in
      msg_params <- get_prop msg (lit "params") ;;
      if truthy msg_params then
        match msg_params with
        | VArr ps => Ok {| id := id packet; method := method packet; params := ps |}
        | _ => Throw (AssertionError default_message)
        end
      else Ok packet
  | _ => Throw (AssertionError default_message)
  end.

End FromRaw.

End ClientPacket.

Module Submission.

Record t := {
  username : value;
  job : value;
  nonce2 : number;
  ts : number;
  nonce : value
}.

Definition str_of (v : value) : jsstring :=
  match v with VStr s => s | _ => [] end.

Definition is_string (v : value) : bool :=
  match typeof v with TString => true | _ => false end.

Definition fromPacket (msg : ClientPacket.t) : result t :=
  let params := ClientPacket.params msg in
  assert (arrlen params >=? 5) (lit "Invalid parameters.") ;;;
  assert (util.isUsername (index params 0)) (lit "Name must be a string.") ;;;
  assert (util.isJob (index params 1)) (lit "Job ID must be a string.") ;;;
  assert (is_string (index params 2)) (lit "Nonce2 must be a string.") ;;;
  assert (strlen (str_of (index params 2)) =? constants.NONCE_SIZE * 2)
         (lit "Nonce2 must be a string.") ;;;
  assert (util.isHex (index params 2)) (lit "Nonce2 must be a string.") ;;;
  assert (is_string (index params 3)) (lit "Time must be a string.") ;;;
  assert (strlen (str_of (index params 3)) =? 8) (lit "Time must be a string.") ;;;
  assert (util.isHex (index params 3)) (lit "Time must be a string.") ;;;
  assert (is_string (index params 4)) (lit "Nonce must be a string.") ;;;
  assert (util.isHex (index params 4)) (lit "Nonce must be a string.") ;;;
  Ok {| username := index params 0;
        job := index params 1;
        nonce2 := parseInt16 (str_of (index params 2));
        ts := parseInt16 (str_of (index params 3));
        nonce := index params 4 |}.

End Submission.

(* ===================================================================== *)
(** ** lib/index.js: Job *)
(* ===================================================================== *)

#[global] Instance byte_eq_dec : EqDecision Byte.byte := Byte.byte_eq_dec.

#[global] Instance byte_countable : Countable Byte.byte :=
  inj_countable Byte.to_N Byte.of_N Byte.of_to_N.

Module Job.

(** What the job reads of the block template it wraps.  [tree_json] is
    the value of [attempt.tree.toJSON()]. *)
Record Tx := { tx_hash : Buffer }.

Record Item := { tx : option Tx }.

Record Attempt := {
  items : list Item;
  prevBlock : Buffer;
  left : Buffer;
  right : Buffer;
  tree_json : value;
  treeRoot : Buffer;
  filterRoot : Buffer;
  reservedRoot : Buffer;
  version : number;
  bits : number;
  time : number;
  attempt_target : Buffer
}.

(** [submissions] is the [BufferSet]: a set of buffers compared by
    content. *)
Record t := {
  id : jsstring;
  attempt : option Attempt;
  target : Buffer;
  difficulty : number;
  submissions : gset Buffer;
  committed : bool
}.

Definition ZERO_HASH : Buffer := repeat Byte.x00 32.

Definition new (id : value) : result t :=
  match id with
  | VStr id =>
      Ok {| id := id; attempt := None; target := ZERO_HASH;
            difficulty := of_Z 0; submissions := ∅; committed := false |}
  | _ => Throw (AssertionError default_message)
  end.

Definition insert (hash : Buffer) (j : t) : bool * t :=
  if decide (hash ∈ submissions j) then (false, j)
  else
    (true,
     {| id := id j; attempt := attempt j; target := target j;
        difficulty := difficulty j;
        submissions := submissions j ∪ {[ hash ]};
        committed := committed j |}).

Section WorkSource.

(** The collaborators of the work source: refreshing a template, its
    difficulty, committing a share to it, and the leaf hash
    [merkle.hashLeaf(BLAKE2b256, .)]. *)
Variable Share CommitResult : Type.
Variable attempt_refresh : Attempt -> Attempt.
Variable attempt_getDifficulty : Attempt -> number.
Variable attempt_commit : Attempt -> Share -> result CommitResult.
Variable hashLeaf : Buffer -> Buffer.


Definition commit (share : Share) (j : t) : result CommitResult * t :=
  if committed j then (Throw (AssertionError (lit "Already committed.")), j)
  else
    let j := {| id := id j; attempt := attempt j; target := target j;
                difficulty := difficulty j; submissions := submissions j;
                committed := true |} in
    match attempt j with
    | Some a => (attempt_commit a share, j)
    | None => (Throw TypeError, j)
    end.

Definition itemTx (a : Attempt) : list value :=
  flat_map
    (fun d => match tx d with
              | Some x => [VStr (Buffer_toString_hex (hashLeaf (tx_hash x)))]
              | None => []
              end)
    (items a).

Definition toJSON (j : t) : result (list value) :=
  match attempt j with
  | None => Throw TypeError
  | Some a =>
      let itemTx := itemTx a in
      v <- util.hex32 (version a) ;;
      b <- util.hex32 (bits a) ;;
      tm <- util.hex32 (time a) ;;
      Ok [ VStr (id j);
           VStr (Buffer_toString_hex (prevBlock a));
           VStr (Buffer_toString_hex (left a));
           VStr (Buffer_toString_hex (right a));
           VArr itemTx;
           tree_json a;
           VStr (Buffer_toString_hex (treeRoot a));
           VStr (Buffer_toString_hex (filterRoot a));
           VStr (Buffer_toString_hex (reservedRoot a));
           VStr v;
           VStr b;
           VStr tm;
           VBool false ]
  end.

End WorkSource.

End Job.

(* ===================================================================== *)
(** ** lib/index.js: Connection *)
(* ===================================================================== *)

Module Connection.

(** What a connection does to its socket, its lock and its listeners,
    in the order it does it.  An emitted error is either a caught
    exception, with the suffix appended to its message, or a fresh
    [Error] with a formatted message. *)
Inductive emitted_error :=
| Rethrown (e : error) (suffix : jsstring)
| Formatted (message : jsstring).

Inductive effect :=
| SocketWrite (text : jsstring)
| SocketDestroy
| LockerDestroy
| EmitClose
| EmitError (err : emitted_error)
| EmitPacket (msg : ClientPacket.t).

(** The fields the methods below read or write.  [sid], [admin], the
    ban score, the lock, the decoder and the list links are left out;
    [trace] records the effects so far, oldest first. *)
Record t := {
  host : jsstring;
  agent : jsstring;
  recv : jsstring;
  users : gset jsstring;
  difficulty : number;
  nextDifficulty : number;
  drainSize : Z;
  destroyed : bool;
  lastRetarget : Z;
  submissions : Z;
  trace : list effect
}.

Definition set_recv (v : jsstring) (c : t) : t :=
  {| host := host c; agent := agent c; recv := v; users := users c;
     difficulty := difficulty c; nextDifficulty := nextDifficulty c;
     drainSize := drainSize c; destroyed := destroyed c;
     lastRetarget := lastRetarget c; submissions := submissions c;
     trace := trace c |}.

Definition set_users (v : gset jsstring) (c : t) : t :=
  {| host := host c; agent := agent c; recv := recv c; users := v;
     difficulty := difficulty c; nextDifficulty := nextDifficulty c;
     drainSize := drainSize c; destroyed := destroyed c;
     lastRetarget := lastRetarget c; submissions := submissions c;
     trace := trace c |}.

Definition set_difficulty (v : number) (c : t) : t :=
  {| host := host c; agent := agent c; recv := recv c; users := users c;
     difficulty := v; nextDifficulty := nextDifficulty c;
     drainSize := drainSize c; destroyed := destroyed c;
     lastRetarget := lastRetarget c; submissions := submissions c;
     trace := trace c |}.

Definition set_nextDifficulty (v : number) (c : t) : t :=
  {| host := host c; agent := agent c; recv := recv c; users := users c;
     difficulty := difficulty c; nextDifficulty := v;
     drainSize := drainSize c; destroyed := destroyed c;
     lastRetarget := lastRetarget c; submissions := submissions c;
     trace := trace c |}.

Definition set_drainSize (v : Z) (c : t) : t :=
  {| host := host c; agent := agent c; recv := recv c; users := users c;
     difficulty := difficulty c; nextDifficulty := nextDifficulty c;
     drainSize := v; destroyed := destroyed c;
     lastRetarget := lastRetarget c; submissions := submissions c;
     trace := trace c |}.

Definition set_destroyed (v : bool) (c : t) : t :=
  {| host := host c; agent := agent c; recv := recv c; users := users c;
     difficulty := difficulty c; nextDifficulty := nextDifficulty c;
     drainSize := drainSize c; destroyed := v;
     lastRetarget := lastRetarget c; submissions := submissions c;
     trace := trace c |}.

Definition set_lastRetarget (v : Z) (c : t) : t :=
  {| host := host c; agent := agent c; recv := recv c; users := users c;
     difficulty := difficulty c; nextDifficulty := nextDifficulty c;
     drainSize := drainSize c; destroyed := destroyed c;
     lastRetarget := v; submissions := submissions c;
     trace := trace c |}.

Definition set_submissions (v : Z) (c : t) : t :=
  {| host := host c; agent := agent c; recv := recv c; users := users c;
     difficulty := difficulty c; nextDifficulty := nextDifficulty c;
     drainSize := drainSize c; destroyed := destroyed c;
     lastRetarget := lastRetarget c; submissions := v;
     trace := trace c |}.

Definition emit (e : effect) (c : t) : t :=
  {| host := host c; agent := agent c; recv := recv c; users := users c;
     difficulty := difficulty c; nextDifficulty := nextDifficulty c;
     drainSize := drainSize c; destroyed := destroyed c;
     lastRetarget := lastRetarget c; submissions := submissions c;
     trace := trace c ++ [e] |}.

(** The constructor, for a socket whose normalised remote address is
    [host]. *)
Definition new (host : jsstring) : t :=
  {| host := host; agent := []; recv := []; users := ∅;
     difficulty := of_Z (-1); nextDifficulty := of_Z (-1);
     drainSize := 0; destroyed := false;
     lastRetarget := -1; submissions := 0; trace := [] |}.

Definition id (c : t) : jsstring :=
  match agent c with
  | [] => host c
  | _ => host c ++ lit "/" ++ agent c
  end.

Definition destroy (c : t) : t :=
  if destroyed c then c
  else emit EmitClose (emit SocketDestroy (emit LockerDestroy (set_destroyed true c))).

(** [Buffer.byteLength(text, "utf8")]: a surrogate pair takes four
    bytes, a lone surrogate the three of U+FFFD. *)
Fixpoint utf8_length (s : jsstring) : Z :=
  match s with
  | [] => 0
  | c :: s' =>
      if (c <? 128)%N then 1 + utf8_length s'
      else if (c <? 2048)%N then 2 + utf8_length s'
      else if ((55296 <=? c) && (c <=? 56319))%N then
        match s' with
        | d :: s'' =>
            if ((56320 <=? d) && (d <=? 57343))%N then 4 + utf8_length s''
            else 3 + utf8_length s'
        | [] => 3
        end
      else 3 + utf8_length s'
  end.

(** The socket listeners of [_init]: "drain" clears the count of
    unacknowledged bytes, "error" passes the error on to the listeners
    of the connection as it is, "close" destroys the connection and
    "data" feeds it. *)
Definition on_drain (c : t) : t := set_drainSize 0 c.

Definition on_socket_error (err : JS.error) (c : t) : t :=
  emit (EmitError (Rethrown err [])) c.

Definition on_close (c : t) : t := destroy c.

(** The literals [/HTTP\/1\.1/i], [/\r+/g] and [/\n+/]. *)
Definition re_http : regex :=
  {| re_bol := false;
     re_body := [ Chr (ci_char 72); Chr (ci_char 84); Chr (ci_char 84);
                  Chr (ci_char 80); Chr (exactly 47); Chr (exactly 49);
                  Chr (exactly 46); Chr (exactly 49) ] |}.

Definition re_cr : regex := {| re_bol := false; re_body := [Plus (exactly 13)] |}.

Definition re_nl : regex := {| re_bol := false; re_body := [Plus (exactly 10)] |}.

Section Environment.

(** The runtime and the server around a connection: [JSON.parse]
    ([None] for a [SyntaxError]) and [JSON.stringify]; the answer of
    [socket.write] to a text, given everything the connection did
    before; the public address of the server options; and the constant
    [SHARES_PER_MINUTE] of [stratum.js], an integer. *)
Variable JSON_parse : jsstring -> option value.
Variable JSON_stringify : value -> jsstring.
Variable socket_write : list effect -> jsstring -> bool.
Variable publicHost : jsstring.
Variable publicPort : N.
Variable SHARES_PER_MINUTE : Z.

Definition write (text : jsstring) (c : t) : t :=
  if destroyed c then c
  else
    let accepted := socket_write (trace c) text in
    let c := emit (SocketWrite text) c in
    if accepted then c
    else
      let c := set_drainSize (drainSize c + utf8_length text) c in
      if drainSize c >? Z.shiftl 5 20 then destroy c else c.

Definition send (json : value) (c : t) : t :=
  if destroyed c then c
  else write (JSON_stringify json ++ lit (String "010" EmptyString)) c.

(** [error(err)] with a caught exception, and [error(fmt, arg)] with
    the one format string the class uses. *)
Definition error_rethrow (e : JS.error) (c : t) : t :=
  if destroyed c then c
  else emit (EmitError (Rethrown e (lit " (" ++ id c ++ lit ")"))) c.

Definition too_much_data (c : t) : jsstring :=
  lit "Too much data buffered (" ++ id c ++ lit ")." ++ lit " (" ++ id c ++ lit ")".

Definition error_too_much_data (c : t) : t :=
  if destroyed c then c
  else emit (EmitError (Formatted (too_much_data c))) c.

Definition crlf : jsstring := [13%N; 10%N].

(** A name between double quotes. *)
Definition quoted (s : string) : jsstring := [34%N] ++ lit s ++ [34%N].

Definition decimal (n : N) : jsstring :=
  lit (NilZero.string_of_uint (N.to_uint n)).

Definition redirect_response : jsstring :=
  join crlf
    [ lit "HTTP/1.1 200 OK";
      lit "X-Stratum: stratum+tcp://" ++ publicHost ++ lit ":" ++ decimal publicPort;
      lit "Connection: Close";
      lit "Content-Type: application/json; charset=utf-8";
      lit "Content-Length: 38";
      [];
      [];
      lit "{" ++ quoted "error" ++ lit ":null," ++ quoted "result"
        ++ lit ":false," ++ quoted "id" ++ lit ":0}" ].

Definition redirect (c : t) : t := destroy (write redirect_response c).

(** [decoder.write(data)] is the argument: the text the UTF-8 decoder
    hands over for the bytes that arrived. *)
Definition handle_line (line : jsstring) (c : t) : t :=
  if strlen line =? 0 then c
  else
    match ClientPacket.fromRaw JSON_parse line with
    | Throw e => error_rethrow e c
    | Ok msg => emit (EmitPacket msg) c
    end.

Definition feed (data : jsstring) (c : t) : t :=
  let c := set_recv (recv c ++ data) c in
  if strlen (recv c) >=? 100000 then destroy (error_too_much_data c)
  else if test re_http (recv c) then redirect c
  else
    let lines := split re_nl (replace re_cr [] (recv c)) in
    let c := set_recv (List.last lines []) c in
    fold_left (fun c line => handle_line line c) (List.removelast lines) c.

Definition addUser (username : jsstring) (c : t) : bool * t :=
  if decide (username ∈ users c) then (false, c)
  else (true, set_users (users c ∪ {[ username ]}) c).

Definition hasUser (username : jsstring) (c : t) : bool :=
  bool_decide (username ∈ users c).

Definition sendMethod (method : jsstring) (params : list value) (c : t) : t :=
  send (VObj [ (lit "id", VNull);
               (lit "method", VStr method);
               (lit "params", VArr params) ]) c.

Definition sendDifficulty (difficulty : number) (c : t) : result unit * t :=
  if gt difficulty (of_Z 0)
  then (Ok tt, sendMethod (lit "mining.set_difficulty") [VNum difficulty] c)
  else (Throw (AssertionError (lit "Difficulty must be at least 1.")), c).

Definition setDifficulty (difficulty : number) (c : t) : t :=
  set_nextDifficulty difficulty c.

(** [sendError(msg, code, reason)] and [sendResponse(msg, result)]: the
    answer to the request [msg]. *)
Definition sendError (msg : ClientPacket.t) (code reason : value) (c : t) : t :=
  send (VObj [ (lit "id", ClientPacket.id msg);
               (lit "result", VNull);
               (lit "error", VArr [code; reason; VBool false]) ]) c.

Definition sendResponse (msg : ClientPacket.t) (result : value) (c : t) : t :=
  send (VObj [ (lit "id", ClientPacket.id msg);
               (lit "result", result);
               (lit "error", VNull) ]) c.

(** [merkle.hashLeaf(BLAKE2b256, .)], which [job.toJSON()] calls. *)
Variable hashLeaf : Buffer -> Buffer.

(** [now] is the value of [Date.now()]. *)
Definition sendJob (job : Job.t) (now : Z) (c : t) : result unit * t :=
  let flushed :=
    if negb (strict_eq (nextDifficulty c) (of_Z (-1))) then
      let c := set_submissions 0 c in
      let c := set_lastRetarget now c in
      match sendDifficulty (nextDifficulty c) c with
      | (Ok _, c) =>
          let c := set_difficulty (nextDifficulty c) c in
          (Ok tt, set_nextDifficulty (of_Z (-1)) c)
      | (Throw e, c) => (Throw e, c)
      end
    else (Ok tt, c) in
  match flushed with
  | (Ok _, c) =>
      match Job.toJSON hashLeaf job with
      | Ok payload => (Ok tt, sendMethod (lit "mining.notify") payload c)
      | Throw e => (Throw e, c)
      end
  | (Throw e, c) => (Throw e, c)
  end.

(** [-1 >>> 0]. *)
Definition UINT32_MAX : number := ushr0 (of_Z (-1)).

(** The ceiling [retarget] works with: [max], or 2^32 - 1 when [max] is
    above it. *)
Definition capDifficulty (max : number) : number :=
  if gt max UINT32_MAX then UINT32_MAX else max.

(** [n % pm === 0] on integers: never so for [pm] zero, where the
    remainder is NaN. *)
Definition multiple_of (n pm : Z) : bool :=
  negb (pm =? 0) && (Z.rem n pm =? 0).

(** At a multiple of [pm] the quotient [submissions / pm] is an integer
    and [target] a multiple of 60000, so that [target / 4] is an
    integer as well: the three divisions are exact in [Z]. *)
Definition retarget (max : number) (now : Z) (c : t) : result bool * t :=
  let pm := SHARES_PER_MINUTE in
  if negb (gt (difficulty c) (of_Z 0)) then (Throw (AssertionError default_message), c)
  else if lastRetarget c =? -1 then (Throw (AssertionError default_message), c)
  else
    let c := set_submissions (submissions c + 1) c in
    if multiple_of (submissions c) pm then
      let target := Z.quot (submissions c) pm * 60000 in
      let actual := now - lastRetarget c in
      let difficulty := fdiv (of_Z 4294967296) (difficulty c) in
      let max := capDifficulty max in
      if Z.abs (target - actual) <=? 5000 then (Ok false, c)
      else
        let actual := if actual <? Z.quot target 4 then Z.quot target 4 else actual in
        let actual := if actual >? target * 4 then target * 4 else actual in
        let difficulty := fmul difficulty (of_Z actual) in
        let difficulty := fdiv difficulty (of_Z target) in
        let difficulty := fdiv (of_Z 4294967296) difficulty in
        let difficulty := ushr0 difficulty in
        let difficulty := Math_min max difficulty in
        let difficulty := Math_max (of_Z 1) difficulty in
        (Ok true, setDifficulty difficulty c)
    else (Ok false, c).

End Environment.

End Connection.

(* ===================================================================== *)
(** ** The format of a submission, as the design document words it *)
(* ===================================================================== *)

Module Design.

(** A hex string: every code unit is one of [0-9], [a-f], [A-F]. *)
Definition hex_string (s : jsstring) : bool :=
  forallb (fun c => match hex_digit_value c with Some _ => true | None => false end) s.

(** Username of 1 to 100 characters, job identifier of 12 to 21, a
    secondary nonce of exactly [NONCE_SIZE * 2] hex digits, a time stamp
    of exactly 8 hex digits, a primary nonce in hex of any length. *)
Definition submit_format (params : list value) : bool :=
  match params with
  | VStr username :: VStr job :: VStr nonce2 :: VStr time :: VStr nonce :: _ =>
      (1 <=? strlen username) && (strlen username <=? 100)
      && (12 <=? strlen job) && (strlen job <=? 21)
      && (strlen nonce2 =? constants.NONCE_SIZE * 2) && hex_string nonce2
      && (strlen time =? 8) && hex_string time
      && hex_string nonce
  | _ => false
  end.

(** The text mentions [HTTP/1.1], in any letter case. *)
Definition is_letter (upper c : N) : Prop := c = upper \/ c = (upper + 32)%N.

Definition http_token (w : jsstring) : Prop :=
  exists h t1 t2 p,
    w = [h; t1; t2; p; 47; 49; 46; 49]%N /\
    is_letter 72 h /\ is_letter 84 t1 /\ is_letter 84 t2 /\ is_letter 80 p.

Definition mentions_http (s : jsstring) : Prop :=
  exists pre w post, s = pre ++ w ++ post /\ http_token w.

(** The text without its carriage returns. *)
Definition strip_cr (s : jsstring) : jsstring :=
  List.filter (fun c => negb (c =? 13)%N) s.

Definition has_newline (s : jsstring) : bool := existsb (fun c => (c =? 10)%N) s.

(** What follows the last newline of the text: the partial line. *)
Fixpoint partial_line (s : jsstring) : jsstring :=
  match s with
  | [] => []
  | c :: s' =>
      if (c =? 10)%N then partial_line s'
      else if has_newline s' then partial_line s'
      else s
  end.

End Design.

(* ===================================================================== *)
(** ** Runs of calls and what they leave behind *)
(* ===================================================================== *)

(** The calls [job.insert(h)] for the fingerprints of [hs], in order,
    whoever submits them: the answers and the job they leave. *)
Fixpoint insert_all (hs : list Buffer) (j : Job.t) : list bool * Job.t :=
  match hs with
  | [] => ([], j)
  | h :: rest =>
      let r := Job.insert h j in
      let rs := insert_all rest r.2 in
      (r.1 :: rs.1, rs.2)
  end.

Arguments Job.commit {Share CommitResult} attempt_commit share j.

(** The calls [job.commit(share)] for the shares of a list, in order. *)
Fixpoint commit_all {Share CommitResult : Type}
    (attempt_commit : Job.Attempt -> Share -> result CommitResult)
    (shares : list Share) (j : Job.t) : list (result CommitResult) * Job.t :=
  match shares with
  | [] => ([], j)
  | share :: rest =>
      let r := Job.commit attempt_commit share j in
      let rs := commit_all attempt_commit rest r.2 in
      (r.1 :: rs.1, rs.2)
  end.

Definition already_committed {CommitResult : Type} : result CommitResult :=
  Throw (AssertionError (lit "Already committed.")).

(** What [destroy] does to a live connection. *)
Definition closing : list Connection.effect :=
  [Connection.LockerDestroy; Connection.SocketDestroy; Connection.EmitClose].

(** The line of a server-to-client call on the wire. *)
Definition call_line (JSON_stringify : value -> jsstring)
    (method : string) (params : list value) : jsstring :=
  JSON_stringify (VObj [ (lit "id", VNull);
                         (lit "method", VStr (lit method));
                         (lit "params", VArr params) ])
  ++ [10%N].

(** What handling a complete line may emit: a packet, or the exception
    of the parser. *)
Definition line_event (e : Connection.effect) : Prop :=
  match e with
  | Connection.EmitPacket _ => True
  | Connection.EmitError (Connection.Rethrown _ _) => True
  | _ => False
  end.

Definition redirect_body : jsstring :=
  lit "{" ++ Connection.quoted "error" ++ lit ":null," ++ Connection.quoted "result"
  ++ lit ":false," ++ Connection.quoted "id" ++ lit ":0}".

(** A run of [n] spaces. *)
Definition spaces (n : Z) : jsstring := repeat 32%N (Z.to_nat n).

(** The run of [k] at the head of a text, dropped. *)
Fixpoint skip (k : N) (s : jsstring) : jsstring :=
  match s with
  | c :: s' => if (c =? k)%N then skip k s' else s
  | [] => []
  end.

(* ===================================================================== *)
(** ** Sample requests, jobs and connections *)
(* ===================================================================== *)

Definition wellformed_submit : ClientPacket.t :=
  {| ClientPacket.id := VNum (of_Z 4);
     ClientPacket.method := lit "mining.submit";
     ClientPacket.params :=
       [ VStr (lit "alice"); VStr (lit "5d1f0a3c00000001");
         VStr (lit "0000abcd"); VStr (lit "5d0f1a2b");
         VStr (lit "00000000deadbeef") ] |}.

Definition fingerprint_a : Buffer := [Byte.x01; Byte.x02; Byte.x03].

Definition fingerprint_b : Buffer := [Byte.xff].

Definition sample_attempt : Job.Attempt :=
  {| Job.items := [ {| Job.tx := None |};
                    {| Job.tx := Some {| Job.tx_hash := [Byte.xab; Byte.xcd] |} |} ];
     Job.prevBlock := repeat Byte.x11 32;
     Job.left := [Byte.x01; Byte.x00];
     Job.right := [Byte.x00; Byte.xff];
     Job.tree_json := VArr [];
     Job.treeRoot := repeat Byte.x22 32;
     Job.filterRoot := repeat Byte.x33 32;
     Job.reservedRoot := repeat Byte.x00 32;
     Job.version := of_Z 0;
     Job.bits := of_Z 486604799;
     Job.time := of_Z 1561000000;
     Job.attempt_target := repeat Byte.xff 32 |}.

Definition sample_job : Job.t :=
  {| Job.id := lit "5d1f0a3c00000001"; Job.attempt := Some sample_attempt;
     Job.target := repeat Byte.xff 32; Job.difficulty := of_Z 1;
     Job.submissions := ∅; Job.committed := false |}.

Definition sample_connection : Connection.t :=
  Connection.set_submissions 19
    (Connection.set_lastRetarget 1561000000000
       (Connection.set_difficulty (of_Z 64) (Connection.new (lit "203.0.113.7")))).

Definition one_half : number := S754_finite false 4503599627370496 (-53).

Definition staged_connection : Connection.t :=
  Connection.setDifficulty (of_Z 38) sample_connection.

(** [JSON.stringify] on the values of the examples below: integers,
    strings with nothing to escape, arrays and objects of those. *)
Fixpoint sample_stringify (v : value) : jsstring :=
  match v with
  | VUndefined | VNull => lit "null"
  | VBool true => lit "true"
  | VBool false => lit "false"
  | VNum (S754_finite s m e) =>
      (if s then lit "-" else []) ++ Connection.decimal (Z.to_N (Z.shiftl (Z.pos m) e))
  | VNum (S754_zero _) => lit "0"
  | VNum _ => lit "null"
  | VStr s => [34%N] ++ s ++ [34%N]
  | VArr items => lit "[" ++ join (lit ",") (map sample_stringify items) ++ lit "]"
  | VObj fields =>
      lit "{"
      ++ join (lit ",")
           (map (fun kv => [34%N] ++ kv.1 ++ [34%N] ++ lit ":" ++ sample_stringify kv.2)
              fields)
      ++ lit "}"
  end.

Definition socket_accepts : list Connection.effect -> jsstring -> bool :=
  fun _ _ => true.

Definition socket_pushes_back : list Connection.effect -> jsstring -> bool :=
  fun _ _ => false.

Definition http_probe : jsstring :=
  lit "GET / HTTP/1.1" ++ Connection.crlf ++ Connection.crlf.

Definition subscribe_line : jsstring :=
  lit "{" ++ Connection.quoted "id" ++ lit ":1," ++ Connection.quoted "method"
  ++ lit ":" ++ Connection.quoted "mining.subscribe" ++ lit ","
  ++ Connection.quoted "params" ++ lit ":[]}".

Definition authorize_line : jsstring :=
  lit "{" ++ Connection.quoted "id" ++ lit ":2," ++ Connection.quoted "method"
  ++ lit ":" ++ Connection.quoted "mining.authorize" ++ lit ","
  ++ Connection.quoted "params" ++ lit ":[" ++ Connection.quoted "HTTP/1.1"
  ++ lit "," ++ Connection.quoted "x" ++ lit "]}".

(** [JSON.parse] on the two lines above; a syntax error elsewhere. *)
Definition sample_parse (s : jsstring) : option value :=
  if decide (s = subscribe_line) then
    Some (VObj [ (lit "id", VNum (of_Z 1));
                 (lit "method", VStr (lit "mining.subscribe"));
                 (lit "params", VArr []) ])
  else if decide (s = authorize_line) then
    Some (VObj [ (lit "id", VNum (of_Z 2));
                 (lit "method", VStr (lit "mining.authorize"));
                 (lit "params", VArr [VStr (lit "HTTP/1.1"); VStr (lit "x")]) ])
  else None.

(** The clock readings of 240 submissions, one every three seconds
    from the last retarget of [sample_connection]. *)
Definition sample_pace : list Z :=
  map (fun k => 1561000000000 + 3000 * (Z.of_nat k + 1)) (seq 0 240).

Definition subscribe_packet : ClientPacket.t :=
  {| ClientPacket.id := VNum (of_Z 1);
     ClientPacket.method := lit "mining.subscribe";
     ClientPacket.params := [] |}.

(* ===================================================================== *)
(** ** Calls on a connection, in sequence *)
(* ===================================================================== *)

Module Lifecycle.

(** What the socket and the server may do to a connection: the four
    socket events and the public methods. *)
Inductive call :=
| Data (data : jsstring)
| SocketError (err : JS.error)
| Closed
| Drained
| Destroy
| Write (text : jsstring)
| Send (json : value)
| ReportError (err : JS.error)
| Redirect
| AddUser (username : jsstring)
| SendError (msg : ClientPacket.t) (code reason : value)
| SendResponse (msg : ClientPacket.t) (result : value)
| SendMethod (method : jsstring) (params : list value)
| SendDifficulty (difficulty : number)
| SetDifficulty (difficulty : number)
| SendJob (job : Job.t) (now : Z)
| Retarget (max : number) (now : Z).

Section Run.

Variable JSON_parse : jsstring -> option value.
Variable JSON_stringify : value -> jsstring.
Variable socket_write : list Connection.effect -> jsstring -> bool.
Variable publicHost : jsstring.
Variable publicPort : N.
Variable hashLeaf : Buffer -> Buffer.
Variable SHARES_PER_MINUTE : Z.

(** The connection after a call; where the method throws, as the throw
    left it. *)
Definition exec (k : call) (c : Connection.t) : Connection.t :=
  match k with
  | Data data => Connection.feed JSON_parse socket_write publicHost publicPort data c
  | SocketError err => Connection.on_socket_error err c
  | Closed => Connection.on_close c
  | Drained => Connection.on_drain c
  | Destroy => Connection.destroy c
  | Write text => Connection.write socket_write text c
  | Send json => Connection.send JSON_stringify socket_write json c
  | ReportError err => Connection.error_rethrow err c
  | Redirect => Connection.redirect socket_write publicHost publicPort c
  | AddUser username => (Connection.addUser username c).2
  | SendError msg code reason =>
      Connection.sendError JSON_stringify socket_write msg code reason c
  | SendResponse msg result =>
      Connection.sendResponse JSON_stringify socket_write msg result c
  | SendMethod method params =>
      Connection.sendMethod JSON_stringify socket_write method params c
  | SendDifficulty difficulty =>
      (Connection.sendDifficulty JSON_stringify socket_write difficulty c).2
  | SetDifficulty difficulty => Connection.setDifficulty difficulty c
  | SendJob job now =>
      (Connection.sendJob JSON_stringify socket_write hashLeaf job now c).2
  | Retarget max now => (Connection.retarget SHARES_PER_MINUTE max now c).2
  end.

Definition run (calls : list call) (c : Connection.t) : Connection.t :=
  fold_left (fun c k => exec k c) calls c.

End Run.

(** The effects that touch the socket or close the connection, and the
    ones that only speak to the listeners. *)
Definition quiet (e : Connection.effect) : Prop :=
  match e with
  | Connection.EmitPacket _ | Connection.EmitError _ => True
  | _ => False
  end.

Definition before_close (e : Connection.effect) : Prop :=
  match e with
  | Connection.SocketWrite _ | Connection.EmitPacket _ | Connection.EmitError _ => True
  | _ => False
  end.

(** The drain limit [5 << 20]. *)
Definition DRAIN_LIMIT : Z := Z.shiftl 5 20.

(** A code unit that ends a line. *)
Definition terminator (c : N) : Prop := c = 10%N \/ c = 13%N.

(** What a living connection keeps between calls: the unacknowledged
    bytes within the drain limit, and a buffered partial line below the
    cap and without line terminators. *)
Definition within_bounds (c : Connection.t) : Prop :=
  Connection.destroyed c = false ->
  0 <= Connection.drainSize c <= DRAIN_LIMIT /\
  strlen (Connection.recv c) < 100000 /\
  Forall (fun u => ~ terminator u) (Connection.recv c).

(** The difficulty state once a first difficulty was delivered: the
    current difficulty is positive, the retarget clock is set, and the
    pending slot is empty or holds a positive value. *)
Definition ready (c : Connection.t) : Prop :=
  gt (Connection.difficulty c) (of_Z 0) = true /\
  Connection.lastRetarget c <> -1 /\
  (strict_eq (Connection.nextDifficulty c) (of_Z (-1)) = true \/
   gt (Connection.nextDifficulty c) (of_Z 0) = true).

(** Calls that respect the contract of the difficulty methods: a
    positive difficulty to stage or send, a ceiling that is a number, a
    clock that does not read -1. *)
Definition sound (k : call) : Prop :=
  match k with
  | SetDifficulty d => gt d (of_Z 0) = true
  | SendDifficulty d => gt d (of_Z 0) = true
  | SendJob _ now => now <> -1
  | Retarget max _ => max <> S754_nan
  | _ => True
  end.

(** How a connection may differ after any number of calls.  Once
    destroyed it stays so and only speaks to its listeners.  While it
    lives it writes and emits; it may close, with the three closing
    effects once, after which only listeners are spoken to.  And the
    bounds are kept. *)
Definition steps_to (c c' : Connection.t) : Prop :=
  (Connection.destroyed c = true ->
   Connection.destroyed c' = true /\
   exists evs, Connection.trace c' = Connection.trace c ++ evs /\ Forall quiet evs) /\
  (Connection.destroyed c = false ->
   exists evs,
     Forall before_close evs /\
     (Connection.destroyed c' = false /\ Connection.trace c' = Connection.trace c ++ evs
      \/ exists post,
           Connection.destroyed c' = true /\
           Connection.trace c' = Connection.trace c ++ evs ++ closing ++ post /\
           Forall quiet post)) /\
  (within_bounds c -> within_bounds c').

(** The three fields of the difficulty state are what they were. *)
Definition same_difficulty (c c' : Connection.t) : Prop :=
  Connection.difficulty c' = Connection.difficulty c /\
  Connection.nextDifficulty c' = Connection.nextDifficulty c /\
  Connection.lastRetarget c' = Connection.lastRetarget c.

End Lifecycle.

(** The calls [retarget(max)] at the clock readings of [times], in
    order. *)
Fixpoint retarget_all (pm : Z) (max : number) (times : list Z) (c : Connection.t)
    : list (result bool) * Connection.t :=
  match times with
  | [] => ([], c)
  | now :: rest =>
      let r := Connection.retarget pm max now c in
      let rs := retarget_all pm max rest r.2 in
      (r.1 :: rs.1, rs.2)
  end.

(** A lower-case hexadecimal digit, and the value of a string of
    hexadecimal digits read from the left. *)
Definition lower_hex (c : N) : Prop := (48 <= c <= 57)%N \/ (97 <= c <= 102)%N.

Definition hex_fold (acc : Z) (s : jsstring) : Z :=
  fold_left (fun acc c => 16 * acc + match hex_digit_value c with Some d => d | None => 0 end)
    s acc.

Definition hex_value (s : jsstring) : Z := hex_fold 0 s.


(** The complete lines of a text: what stands before each newline,
    [piece] being the line under way. *)
Fixpoint lines_from (piece s : jsstring) : list jsstring :=
  match s with
  | [] => []
  | c :: s' =>
      if (c =? 10)%N then piece :: lines_from [] s'
      else lines_from (piece ++ [c]) s'
  end.

Definition complete_lines (s : jsstring) : list jsstring := lines_from [] s.

(** What the listeners of the connection [who] get for one complete
    line: nothing for an empty line, else the packet or the exception
    of the parser. *)
Definition line_effects (JSON_parse : jsstring -> option value)
    (who line : jsstring) : list Connection.effect :=
  match line with
  | [] => []
  | _ =>
      match ClientPacket.fromRaw JSON_parse line with
      | Ok msg => [Connection.EmitPacket msg]
      | Throw e =>
          [Connection.EmitError (Connection.Rethrown e (lit " (" ++ who ++ lit ")"))]
      end
  end.

(** A stream with an empty line, a request ended by CR LF, a line that
    is not JSON, and the start of a further line. *)
Definition sample_stream : jsstring :=
  Connection.crlf ++ subscribe_line ++ Connection.crlf ++ lit "junk" ++ [10%N] ++ lit "{".

(* ===================================================================== *)
(** ** The runtime model on small inputs *)
(* ===================================================================== *)

Example split_on_newlines :
  split Connection.re_nl (lit "ab" ++ [10; 10]%N ++ lit "c" ++ [10]%N ++ lit "d")
  = [lit "ab"; lit "c"; lit "d"] /\
  split Connection.re_nl (lit "ab" ++ [10]%N) = [lit "ab"; []] /\
  split Connection.re_nl [] = [[]].
Proof. repeat split. Qed.

Example replace_carriage_returns :
  replace Connection.re_cr [] ([13; 13]%N ++ lit "a" ++ [13; 10]%N ++ lit "b" ++ [13]%N)
  = lit "a" ++ [10]%N ++ lit "b".
Proof. reflexivity. Qed.

Example test_http_any_case :
  test Connection.re_http (lit "get / http/1.1") = true /\
  test Connection.re_http (lit "GET / HTTP/1.0") = false.
Proof. split; reflexivity. Qed.

Example ToUint32_wraps :
  ToUint32 (of_Z (-1)) = 4294967295 /\
  ToUint32 (of_Z 4294967301) = 5 /\
  ToUint32 (fdiv (of_Z 192) (of_Z 5)) = 38 /\
  ToUint32 NaN = 0.
Proof. repeat split. Qed.

Example parseInt16_prefixes :
  parseInt16 (lit "0000abcd") = of_Z 43981 /\
  parseInt16 (lit " -0x1fz") = of_Z (-31) /\
  parseInt16 (lit "xyz") = NaN.
Proof. repeat split. Qed.

Example hex32_pads :
  util.hex32 (of_Z 255) = Ok (lit "000000ff") /\
  util.hex32 (of_Z 486604799) = Ok (lit "1d00ffff") /\
  util.hex32 (of_Z 4294967296) = Throw (AssertionError default_message) /\
  util.hex32 one_half = Throw (AssertionError default_message).
Proof. repeat split. Qed.

Example retarget_slow_miner :
  Connection.retarget 20 (of_Z 1000) 1561000100000 sample_connection
  = (Ok true,
     Connection.setDifficulty (of_Z 38)
       (Connection.set_submissions 20 sample_connection)).
Proof. vm_compute. reflexivity. Qed.

(* ===================================================================== *)
(** ** Submissions: [util.isHex] and [Submission.fromPacket] *)
(* ===================================================================== *)

Section SubmissionFacts.

(** The pattern matches the strings of exactly one hex digit. *)
Lemma re_isHex_single (s : jsstring) :
  test util.re_isHex s = true <-> exists c, s = [c] /\ util.hex_class c = true.
Proof.
  unfold test; simpl. split.
  - destruct s as [|c [|d s]]; try discriminate.
    + destruct (util.hex_class c) eqn:E; [eauto | discriminate].
    + destruct (util.hex_class c); discriminate.
  - intros (c & -> & ->). reflexivity.
Qed.

Lemma isHex_false (v : value) : util.isHex v = false.
Proof.
  destruct v as [ | | | |s| | ]; try reflexivity.
  unfold util.isHex. destruct (test util.re_isHex s) eqn:E.
  - apply re_isHex_single in E as (c & -> & _). reflexivity.
  - apply andb_false_r.
Qed.

Lemma fromPacket_throws (msg : ClientPacket.t) :
  exists m, Submission.fromPacket msg = Throw (AssertionError m).
Proof.
  unfold Submission.fromPacket. rewrite !isHex_false.
  destruct (arrlen _ >=? 5); simpl; eauto.
  destruct (util.isUsername _); simpl; eauto.
  destruct (util.isJob _); simpl; eauto.
  destruct (Submission.is_string _); simpl; eauto.
  destruct (strlen _ =? _); simpl; eauto.
Qed.

End SubmissionFacts.

(** C1, at a request that meets the five format constraints of the
    design document: [Submission.fromPacket] does not return the parsed
    record, it throws the assertion on the secondary nonce.  The hex
    test behind the three hex fields accepts no string (see
    [isHex_false]). *)
Theorem fromPacket_rejects_wellformed_submit :
  Design.submit_format (ClientPacket.params wellformed_submit) = true /\
  Submission.fromPacket wellformed_submit
  = Throw (AssertionError (lit "Nonce2 must be a string.")).
Proof. split; reflexivity. Qed.

(** C2: [util.isHex] answers false on every input.  Its pattern matches
    one-character strings only, whose length is odd, while the test
    before it asks for an even length.  Hence [util.isSID] answers false
    on every input too, and [Submission.fromPacket] throws an assertion
    error on every packet: no submission is ever accepted. *)
Theorem isHex_never_holds :
  (forall s : jsstring,
      test util.re_isHex s = match s with [c] => util.hex_class c | _ => false end) /\
  (forall v : value, util.isHex v = false) /\
  (forall v : value, util.isSID v = false) /\
  (forall msg : ClientPacket.t,
      exists m, Submission.fromPacket msg = Throw (AssertionError m)).
Proof.
  split; [| split; [| split]].
  - intros [|c [|d s]]; unfold test; simpl; try reflexivity;
      destruct (util.hex_class c); reflexivity.
  - apply isHex_false.
  - intros v. destruct v as [ | | | |s| | ]; try reflexivity.
    unfold util.isSID. rewrite isHex_false. apply andb_false_r.
  - apply fromPacket_throws.
Qed.


(* ===================================================================== *)
(** ** Jobs: duplicate detection, commit, serialisation *)
(* ===================================================================== *)

Section JobFacts.

Lemma insert_spec (h : Buffer) (j : Job.t) :
  (Job.insert h j).1 = bool_decide (h ∉ Job.submissions j) /\
  Job.submissions (Job.insert h j).2
  = (if (Job.insert h j).1 then Job.submissions j ∪ {[ h ]} else Job.submissions j) /\
  ((Job.insert h j).1 = false -> (Job.insert h j).2 = j).
Proof.
  unfold Job.insert. destruct (decide (h ∈ Job.submissions j)) as [Hin|Hout]; simpl.
  - rewrite bool_decide_eq_false_2 by (intros H; exact (H Hin)). auto.
  - rewrite bool_decide_eq_true_2 by assumption. repeat split. discriminate.
Qed.

Lemma insert_all_lookup (hs : list Buffer) :
  forall (j : Job.t) (k : nat) (h : Buffer),
    hs !! k = Some h ->
    (insert_all hs j).1 !! k
    = Some (bool_decide ((h ∉ Job.submissions j) /\ (h ∉ take k hs))).
Proof.
  induction hs as [|h0 rest IH]; intros j k h Hk; [discriminate |].
  simpl. destruct (Job.insert h0 j) as [b j1] eqn:E1. simpl.
  destruct (insert_all rest j1) as [bs j2] eqn:E2. simpl.
  pose proof (insert_spec h0 j) as (Hb & Hs & _). rewrite E1 in Hb, Hs; simpl in *.
  destruct k as [|k]; simpl in *.
  - injection Hk as ->. f_equal. subst b. apply bool_decide_ext.
    split; [intros H; split; [exact H | apply not_elem_of_nil] | tauto].
  - specialize (IH j1 k h Hk). rewrite E2 in IH; simpl in IH. rewrite IH.
    f_equal. apply bool_decide_ext. rewrite Hs, not_elem_of_cons.
    destruct b.
    + rewrite not_elem_of_union, not_elem_of_singleton. tauto.
    + symmetry in Hb. apply bool_decide_eq_false, dec_stable in Hb.
      split; [| tauto]. intros [H1 H2]. repeat split; try assumption.
      intros ->. exact (H1 Hb).
Qed.

Lemma insert_all_submissions (hs : list Buffer) :
  forall j : Job.t,
    Job.submissions (insert_all hs j).2 = Job.submissions j ∪ list_to_set hs.
Proof.
  induction hs as [|h0 rest IH]; intros j; simpl.
  - rewrite (right_id_L ∅ (∪)). reflexivity.
  - destruct (Job.insert h0 j) as [b j1] eqn:E1. simpl.
    destruct (insert_all rest j1) as [bs j2] eqn:E2. simpl.
    specialize (IH j1). rewrite E2 in IH; simpl in IH. rewrite IH.
    pose proof (insert_spec h0 j) as (Hb & Hs & _). rewrite E1 in Hb, Hs; simpl in *.
    rewrite Hs. destruct b.
    + rewrite (assoc_L (∪)). reflexivity.
    + symmetry in Hb. apply bool_decide_eq_false, dec_stable in Hb.
      rewrite (assoc_L (∪)). f_equal.
      symmetry. rewrite (comm_L (∪)).
      apply subseteq_union_1_L, singleton_subseteq_l, Hb.
Qed.

End JobFacts.

(** C3: in any sequence of [insert] calls on a job, from any mix of
    connections and in any order, the call with fingerprint [h] at
    position [k] answers true exactly when [h] was not recorded before
    the sequence and does not occur earlier in it: true on the first
    call with [h], false on every later one.  A single call that answers
    true adds the fingerprint to the seen-set; one that answers false
    leaves the job as it was. *)
Theorem insert_true_exactly_once
    (j : Job.t) (hs : list Buffer) (k : nat) (h : Buffer) :
  hs !! k = Some h ->
  (insert_all hs j).1 !! k
  = Some (bool_decide ((h ∉ Job.submissions j) /\ (h ∉ take k hs))) /\
  Job.submissions (insert_all hs j).2 = Job.submissions j ∪ list_to_set hs /\
  (Job.insert h j).1 = bool_decide (h ∉ Job.submissions j) /\
  Job.submissions (Job.insert h j).2
  = (if (Job.insert h j).1 then Job.submissions j ∪ {[ h ]} else Job.submissions j) /\
  ((Job.insert h j).1 = false -> (Job.insert h j).2 = j).
Proof.
  intros Hk. split; [| split].
  - apply insert_all_lookup, Hk.
  - apply insert_all_submissions.
  - apply insert_spec.
Qed.

Lemma insert_true_exactly_once_witness :
  [fingerprint_a; fingerprint_b; fingerprint_a] !! 2%nat = Some fingerprint_a /\
  (insert_all [fingerprint_a; fingerprint_b; fingerprint_a] sample_job).1 !! 2%nat
  = Some (bool_decide ((fingerprint_a ∉ Job.submissions sample_job) /\
                       (fingerprint_a ∉ take 2 [fingerprint_a; fingerprint_b; fingerprint_a]))).
Proof.
  split; [reflexivity |].
  apply (insert_true_exactly_once sample_job
           [fingerprint_a; fingerprint_b; fingerprint_a] 2 fingerprint_a).
  reflexivity.
Defined.

Example insert_three_calls :
  (insert_all [fingerprint_a; fingerprint_b; fingerprint_a] sample_job).1
  = [true; true; false].
Proof. vm_compute. reflexivity. Qed.

Section CommitFacts.

Context {Share CommitResult : Type}.
Variable attempt_commit : Job.Attempt -> Share -> result CommitResult.

Lemma commit_committed (share : Share) (j : Job.t) :
  Job.committed j = true ->
  Job.commit attempt_commit share j = (already_committed, j).
Proof. intros H. unfold Job.commit. rewrite H. reflexivity. Qed.

Lemma commit_marks (share : Share) (j : Job.t) :
  Job.committed (Job.commit attempt_commit share j).2 = true.
Proof.
  unfold Job.commit. destruct (Job.committed j) eqn:E; simpl; [exact E |].
  destruct (Job.attempt j); reflexivity.
Qed.

Lemma commit_all_committed (shares : list Share) (j : Job.t) :
  Job.committed j = true ->
  commit_all attempt_commit shares j
  = (repeat already_committed (length shares), j).
Proof.
  intros H. induction shares as [|s rest IH]; simpl; [reflexivity |].
  rewrite (commit_committed s j H). simpl. rewrite IH. reflexivity.
Qed.

End CommitFacts.

(** C7: on a job that is not committed yet, the first [commit] marks
    the job committed and hands the share to the work source, whose
    answer it returns; every later [commit] on that job throws
    "Already committed." and leaves the job as it is. *)
Theorem commit_at_most_once {Share CommitResult : Type}
    (attempt_commit : Job.Attempt -> Share -> result CommitResult)
    (j : Job.t) (a : Job.Attempt) (share : Share) (later : list Share) :
  Job.committed j = false ->
  Job.attempt j = Some a ->
  let first := Job.commit attempt_commit share j in
  first.1 = attempt_commit a share /\
  Job.committed first.2 = true /\
  commit_all attempt_commit later first.2
  = (repeat (Throw (AssertionError (lit "Already committed."))) (length later),
     first.2).
Proof.
  intros Hc Ha first. split; [| split].
  - unfold first, Job.commit. rewrite Hc. simpl. rewrite Ha. reflexivity.
  - apply commit_marks.
  - apply commit_all_committed, commit_marks.
Qed.

Lemma commit_at_most_once_witness :
  Job.committed sample_job = false /\
  Job.attempt sample_job = Some sample_attempt /\
  (Job.commit (fun _ (share : nat) => Ok share) 7%nat sample_job).1 = Ok 7%nat /\
  commit_all (fun _ (share : nat) => Ok share) [8%nat; 9%nat]
    (Job.commit (fun _ (share : nat) => Ok share) 7%nat sample_job).2
  = (repeat (Throw (AssertionError (lit "Already committed."))) 2,
     (Job.commit (fun _ (share : nat) => Ok share) 7%nat sample_job).2).
Proof.
  pose proof (commit_at_most_once (fun _ (share : nat) => Ok share)
                sample_job sample_attempt 7%nat [8%nat; 9%nat]
                eq_refl eq_refl) as (H1 & _ & H3).
  repeat split; assumption.
Defined.

(** C10: whenever [toJSON] returns, the array has exactly 13 elements
    and the last one, the clean-jobs flag, is the constant [false],
    whatever the job and its template. *)
Theorem toJSON_thirteen_fields_clean_false
    (hashLeaf : Buffer -> Buffer) (j : Job.t) (arr : list value) :
  Job.toJSON hashLeaf j = Ok arr ->
  length arr = 13%nat /\
  arr !! 12%nat = Some (VBool false) /\
  List.last arr VUndefined = VBool false.
Proof.
  unfold Job.toJSON. destruct (Job.attempt j) as [a|]; [| discriminate].
  destruct (util.hex32 (Job.version a)); [| discriminate].
  destruct (util.hex32 (Job.bits a)); [| discriminate].
  destruct (util.hex32 (Job.time a)); [| discriminate].
  simpl. intros [= <-]. repeat split.
Qed.

Lemma toJSON_thirteen_fields_clean_false_witness :
  match Job.toJSON (fun b => b) sample_job with
  | Ok arr =>
      length arr = 13%nat /\
      arr !! 12%nat = Some (VBool false) /\
      List.last arr VUndefined = VBool false
  | Throw _ => False
  end.
Proof.
  destruct (Job.toJSON (fun b => b) sample_job) as [arr|e] eqn:E.
  - exact (toJSON_thirteen_fields_clean_false (fun b => b) sample_job arr E).
  - vm_compute in E. discriminate E.
Defined.

(* ===================================================================== *)
(** ** Order on binary64 numbers *)
(* ===================================================================== *)

Section NumberOrder.

Lemma SFcompare_antisym (a b : number) :
  SFcompare b a = option_map CompOpp (SFcompare a b).
Proof.
  destruct a as [sa|sa| |sa ma ea], b as [sb|sb| |sb mb eb]; simpl;
    try reflexivity;
    try (destruct sa; reflexivity);
    try (destruct sb; reflexivity);
    try (destruct sa, sb; reflexivity).
  destruct sa, sb; try reflexivity.
  - rewrite (Z.compare_antisym ea eb).
    destruct (ea ?= eb); simpl; try reflexivity.
    rewrite (Pos.compare_cont_antisym ma mb Eq). reflexivity.
  - rewrite (Z.compare_antisym ea eb).
    destruct (ea ?= eb); simpl; try reflexivity.
    rewrite (Pos.compare_cont_antisym ma mb Eq). simpl.
    destruct (Pos.compare_cont Eq ma mb); reflexivity.
Qed.

Lemma SFcompare_refl (a : number) :
  a <> S754_nan -> SFcompare a a = Some Eq.
Proof.
  destruct a as [s|s| |s m e]; simpl; intros H; try congruence.
  - destruct s; reflexivity.
  - rewrite Z.compare_refl.
    change (Pos.compare_cont Eq m m) with (Pos.compare m m).
    rewrite Pos.compare_refl. destruct s; reflexivity.
Qed.

Lemma le_refl (a : number) : a <> S754_nan -> le a a = true.
Proof. intros H. unfold le, SFleb. rewrite (SFcompare_refl a H). reflexivity. Qed.

Lemma lt_le (a b : number) : lt a b = true -> le a b = true.
Proof. unfold lt, le, SFltb, SFleb. destruct (SFcompare a b) as [[]|]; congruence. Qed.

Lemma not_lt_le (a b : number) :
  a <> S754_nan -> b <> S754_nan -> lt a b = false -> le b a = true.
Proof.
  unfold lt, le, SFltb, SFleb. intros Ha Hb. rewrite (SFcompare_antisym a b).
  destruct (SFcompare a b) as [[]|] eqn:E; simpl; try congruence.
  destruct a, b; simpl in E; congruence.
Qed.

Lemma le_not_nan_r (a b : number) : le a b = true -> b <> S754_nan.
Proof. intros H ->. destruct a; discriminate H. Qed.

(** Rounding an integer never gives NaN. *)
Lemma shr_1_nonneg (mrs : shr_record) : 0 <= shr_m mrs -> 0 <= shr_m (shr_1 mrs).
Proof.
  destruct mrs as [m r s]. destruct m as [|p|p]; simpl; [lia | | lia].
  intros _. destruct p; simpl; lia.
Qed.

Lemma iter_pos_shr_1_nonneg (p : positive) :
  forall mrs, 0 <= shr_m mrs -> 0 <= shr_m (SpecFloat.iter_pos shr_1 p mrs).
Proof.
  induction p as [p IH|p IH|]; intros mrs H; simpl.
  - apply IH, IH, shr_1_nonneg, H.
  - apply IH, IH, H.
  - apply shr_1_nonneg, H.
Qed.

Lemma shr_fexp_nonneg (m e : Z) (l : location) :
  0 <= m -> 0 <= shr_m (shr_fexp prec emax m e l).1.
Proof.
  intros H. unfold shr_fexp, shr.
  assert (H0 : 0 <= shr_m (shr_record_of_loc m l)).
  { destruct l as [|[]]; exact H. }
  destruct (fexp prec emax (Zdigits2 m + e) - e); simpl; try exact H0.
  apply iter_pos_shr_1_nonneg, H0.
Qed.

Lemma binary_round_aux_not_nan (sx : bool) (mx ex : Z) (lx : location) :
  0 <= mx -> binary_round_aux prec emax sx mx ex lx <> S754_nan.
Proof.
  intros H. unfold binary_round_aux.
  pose proof (shr_fexp_nonneg mx ex lx H) as H1.
  destruct (shr_fexp prec emax mx ex lx) as [mrs' e']. simpl in H1.
  assert (H2 : 0 <= round_nearest_even (shr_m mrs') (loc_of_shr_record mrs')).
  { unfold round_nearest_even.
    destruct (loc_of_shr_record mrs') as [|[]]; try exact H1; try lia.
    destruct (Z.even (shr_m mrs')); lia. }
  pose proof (shr_fexp_nonneg _ e' loc_Exact H2) as H3.
  destruct (shr_fexp prec emax _ e' loc_Exact) as [mrs'' e'']. simpl in H3.
  destruct (shr_m mrs'') as [|p|p]; [discriminate | | lia].
  destruct (e'' <=? emax - prec); discriminate.
Qed.

Lemma of_Z_not_nan (z : Z) : of_Z z <> S754_nan.
Proof.
  unfold of_Z, binary_normalize, binary_round.
  destruct z as [|p|p]; [discriminate | |];
    destruct (shl_align p 0 _) as [mz ez];
    apply binary_round_aux_not_nan; lia.
Qed.

(** [Math.max(1, Math.min(cap, x))] for a number [x] and a ceiling of at
    least 1 lies between 1 and the ceiling. *)
Lemma clamp_bounds (cap x : number) :
  x <> S754_nan ->
  le (of_Z 1) cap = true ->
  le (of_Z 1) (Math_max (of_Z 1) (Math_min cap x)) = true /\
  le (Math_max (of_Z 1) (Math_min cap x)) cap = true.
Proof.
  intros Hx Hcap.
  pose proof (le_not_nan_r _ _ Hcap) as Hc.
  assert (Hmin : Math_min cap x = cap \/ (Math_min cap x = x /\ le x cap = true)
                 \/ (exists s, Math_min cap x = S754_zero s)).
  { unfold Math_min.
    destruct cap as [sc|sc| |sc mc ec], x as [sx|sx| |sx mx ex];
      try congruence; eauto;
      match goal with
      | |- context [lt ?b ?a] =>
          destruct (lt b a) eqn:E; [right; left; split; [reflexivity | apply lt_le, E] | left; reflexivity]
      end. }
  assert (Hone : forall y, y <> S754_nan ->
                 Math_max (of_Z 1) y = (if gt y (of_Z 1) then y else of_Z 1)).
  { intros y Hy. destruct y; try congruence; reflexivity. }
  assert (Hm : Math_min cap x <> S754_nan).
  { destruct Hmin as [->|[[-> _]|[s ->]]]; congruence. }
  rewrite (Hone _ Hm). unfold gt.
  destruct (SFltb (of_Z 1) (Math_min cap x)) eqn:E.
  - split; [apply lt_le, E |].
    destruct Hmin as [->|[[-> H]|[s Hs]]]; [apply le_refl, Hc | exact H |].
    rewrite Hs in E. discriminate E.
  - split; [reflexivity | exact Hcap].
Qed.

End NumberOrder.

(* ===================================================================== *)
(** ** Vardiff: [Connection.retarget] *)
(* ===================================================================== *)

Section RetargetFacts.

Variable pm : Z.

(** At a positive multiple of a positive [pm] the target is a positive
    multiple of 60000 and its quarter is exact. *)
Lemma decision_point_target (n : Z) :
  0 < pm -> 0 < n -> Z.rem n pm = 0 ->
  Connection.multiple_of n pm = true /\
  Z.quot n pm = n / pm /\
  60000 <= Z.quot n pm * 60000 /\
  4 * Z.quot (Z.quot n pm * 60000) 4 = Z.quot n pm * 60000.
Proof.
  intros Hpm Hn Hrem.
  pose proof (Z.quot_rem' n pm) as Hq. rewrite Hrem in Hq.
  assert (Hq1 : 1 <= Z.quot n pm) by nia.
  repeat split.
  - unfold Connection.multiple_of. rewrite Hrem.
    destruct (Z.eqb_spec pm 0); [lia | reflexivity].
  - apply Z.quot_div_nonneg; lia.
  - lia.
  - replace (Z.quot n pm * 60000) with (Z.quot n pm * 15000 * 4) by lia.
    rewrite Z.quot_mul by lia. lia.
Qed.

(** Whatever [retarget] stages went through [Math.max(1, Math.min(cap, .))]
    on a value that came out of [>>> 0]. *)
Lemma retarget_staged (max : number) (now : Z) (c c' : Connection.t) :
  Connection.retarget pm max now c = (Ok true, c') ->
  exists x : Z,
    Connection.nextDifficulty c'
    = Math_max (of_Z 1) (Math_min (Connection.capDifficulty max) (of_Z x)).
Proof.
  unfold Connection.retarget.
  destruct (negb (gt (Connection.difficulty c) (of_Z 0))); [discriminate |].
  destruct (Connection.lastRetarget c =? -1); [discriminate |].
  destruct (Connection.multiple_of _ pm); [| discriminate].
  destruct (Z.abs _ <=? 5000); [discriminate |].
  intros [= <-]. eexists. reflexivity.
Qed.

End RetargetFacts.

(** C4, as amended: whenever [retarget] stages a new difficulty and the
    ceiling (the [max] argument, lowered to 2^32 - 1 when it is above)
    is at least 1, the staged value lies between 1 and the ceiling, for
    every elapsed time. *)
Theorem retarget_staged_within_bounds
    (pm : Z) (max : number) (now : Z) (c c' : Connection.t) :
  Connection.retarget pm max now c = (Ok true, c') ->
  le (of_Z 1) (Connection.capDifficulty max) = true ->
  le (of_Z 1) (Connection.nextDifficulty c') = true /\
  le (Connection.nextDifficulty c') (Connection.capDifficulty max) = true.
Proof.
  intros H Hcap. apply retarget_staged in H as [x ->].
  apply clamp_bounds; [apply of_Z_not_nan | exact Hcap].
Qed.

Lemma retarget_staged_within_bounds_witness :
  exists c',
    Connection.retarget 20 (of_Z 1000) 1561000100000 sample_connection = (Ok true, c') /\
    le (of_Z 1) (Connection.capDifficulty (of_Z 1000)) = true /\
    le (of_Z 1) (Connection.nextDifficulty c') = true /\
    le (Connection.nextDifficulty c') (Connection.capDifficulty (of_Z 1000)) = true.
Proof.
  eexists. split; [vm_compute; reflexivity |]. split; [reflexivity |].
  eapply (retarget_staged_within_bounds 20 (of_Z 1000) 1561000100000 sample_connection);
    reflexivity.
Defined.

(** C4 as stated fails for a ceiling below 1: with [max] one half
    [retarget] stages 1, which is above the ceiling. *)
Lemma retarget_staged_above_small_cap :
  exists c',
    Connection.retarget 20 one_half 1561000100000 sample_connection = (Ok true, c') /\
    Connection.capDifficulty one_half = one_half /\
    Connection.nextDifficulty c' = of_Z 1 /\
    le (Connection.nextDifficulty c') (Connection.capDifficulty one_half) = false.
Proof.
  exists (Connection.setDifficulty (of_Z 1)
            (Connection.set_submissions 20 sample_connection)).
  vm_compute. repeat split.
Qed.

(** C5: at a decision point (the count after the increment is a positive
    multiple of [pm]) where the elapsed time, clamped to
    [[target/4, target*4]], is within 5000 ms of the target, [retarget]
    returns false and changes nothing but the count: no difficulty is
    staged and the current one stays. *)
Theorem retarget_within_hysteresis_band
    (pm : Z) (max : number) (now : Z) (c : Connection.t) :
  let n := Connection.submissions c + 1 in
  let target := n / pm * 60000 in
  let elapsed := now - Connection.lastRetarget c in
  let clamped := Z.min (Z.max elapsed (target / 4)) (target * 4) in
  0 < pm ->
  gt (Connection.difficulty c) (of_Z 0) = true ->
  Connection.lastRetarget c <> -1 ->
  0 < n ->
  Z.rem n pm = 0 ->
  Z.abs (target - clamped) <= 5000 ->
  Connection.retarget pm max now c = (Ok false, Connection.set_submissions n c) /\
  Connection.nextDifficulty (Connection.retarget pm max now c).2
  = Connection.nextDifficulty c /\
  Connection.difficulty (Connection.retarget pm max now c).2
  = Connection.difficulty c.
Proof.
  intros n target elapsed clamped Hpm Hd Hl Hn Hrem Hband.
  destruct (decision_point_target pm n Hpm Hn Hrem) as (Hm & Hq & Ht & H4).
  assert (E : Connection.retarget pm max now c
              = (Ok false, Connection.set_submissions n c)).
  { unfold Connection.retarget. rewrite Hd. simpl negb. cbv iota.
    destruct (Z.eqb_spec (Connection.lastRetarget c) (-1)) as [|_]; [contradiction |].
    cbn [Connection.submissions Connection.set_submissions Connection.lastRetarget].
    fold n. rewrite Hm, Hq. fold target. fold elapsed.
    destruct (Z.leb_spec (Z.abs (target - elapsed)) 5000) as [|Hout]; [reflexivity |].
    exfalso. subst clamped. unfold target in *. rewrite <- Hq in *.
    assert (H4' : Z.quot n pm * 60000 / 4 = Z.quot n pm * 15000).
    { replace (Z.quot n pm * 60000) with (Z.quot n pm * 15000 * 4) by lia.
      apply Z.div_mul. lia. }
    rewrite H4' in Hband. lia. }
  rewrite E. repeat split.
Qed.

Lemma retarget_within_hysteresis_band_witness :
  Connection.retarget 20 (of_Z 1000) 1561000062000 sample_connection
  = (Ok false, Connection.set_submissions 20 sample_connection).
Proof.
  apply (retarget_within_hysteresis_band 20 (of_Z 1000) 1561000062000 sample_connection);
    try reflexivity; try lia; try discriminate.
Defined.

(* ===================================================================== *)
(** ** Difficulty delivery: [Connection.sendJob] *)
(* ===================================================================== *)

Section DeliveryFacts.

Variable JSON_stringify : value -> jsstring.
Variable socket_write : list Connection.effect -> jsstring -> bool.

Lemma destroy_live (c : Connection.t) :
  Connection.destroyed c = false ->
  Connection.trace (Connection.destroy c) = Connection.trace c ++ closing /\
  Connection.destroyed (Connection.destroy c) = true.
Proof.
  intros H. unfold Connection.destroy. rewrite H. simpl.
  rewrite <- !app_assoc. split; reflexivity.
Qed.

Lemma destroy_fields (c : Connection.t) :
  Connection.submissions (Connection.destroy c) = Connection.submissions c /\
  Connection.lastRetarget (Connection.destroy c) = Connection.lastRetarget c /\
  Connection.difficulty (Connection.destroy c) = Connection.difficulty c /\
  Connection.nextDifficulty (Connection.destroy c) = Connection.nextDifficulty c /\
  Connection.recv (Connection.destroy c) = Connection.recv c.
Proof. unfold Connection.destroy. destruct (Connection.destroyed c); repeat split. Qed.

(** A write on a live connection reaches the socket; it closes the
    connection only when the socket pushed back and the drain limit is
    passed.  It touches no difficulty state. *)
Lemma write_live (text : jsstring) (c : Connection.t) :
  Connection.destroyed c = false ->
  let c' := Connection.write socket_write text c in
  (Connection.trace c' = Connection.trace c ++ [Connection.SocketWrite text]
   /\ Connection.destroyed c' = false
   \/ Connection.trace c' = Connection.trace c ++ Connection.SocketWrite text :: closing
      /\ Connection.destroyed c' = true
      /\ socket_write (Connection.trace c) text = false
      /\ Z.shiftl 5 20 < Connection.drainSize c + Connection.utf8_length text).
Proof.
  intros H c'. subst c'. unfold Connection.write. rewrite H.
  destruct (socket_write (Connection.trace c) text); [left; split; [reflexivity | exact H] |].
  cbn [Connection.drainSize Connection.set_drainSize Connection.emit].
  destruct (Z.gtb_spec (Connection.drainSize c + Connection.utf8_length text)
              (Z.shiftl 5 20)) as [Hgt|Hle].
  - right. unfold Connection.destroy. simpl. rewrite H. simpl.
    rewrite <- !app_assoc. repeat split. exact Hgt.
  - left. split; [reflexivity | exact H].
Qed.

Lemma write_fields (text : jsstring) (c : Connection.t) :
  let c' := Connection.write socket_write text c in
  Connection.submissions c' = Connection.submissions c /\
  Connection.lastRetarget c' = Connection.lastRetarget c /\
  Connection.difficulty c' = Connection.difficulty c /\
  Connection.nextDifficulty c' = Connection.nextDifficulty c /\
  Connection.recv c' = Connection.recv c.
Proof.
  intros c'. subst c'. unfold Connection.write.
  destruct (Connection.destroyed c); [repeat split |].
  destruct (socket_write _ _); [repeat split |].
  match goal with |- context [if ?b then _ else _] => destruct b end;
    [| repeat split].
  pose proof (destroy_fields
                (Connection.set_drainSize
                   (Connection.drainSize (Connection.emit (Connection.SocketWrite text) c)
                    + Connection.utf8_length text)
                   (Connection.emit (Connection.SocketWrite text) c))) as H.
  exact H.
Qed.

Lemma sendMethod_live (method : string) (params : list value) (c : Connection.t) :
  Connection.destroyed c = false ->
  Connection.sendMethod JSON_stringify socket_write (lit method) params c
  = Connection.write socket_write (call_line JSON_stringify method params) c.
Proof. intros H. unfold Connection.sendMethod, Connection.send. rewrite H. reflexivity. Qed.

End DeliveryFacts.

(** C6, as amended: on a connection that is not destroyed and for a job
    whose [toJSON] returns, [sendJob] with a staged difficulty that is
    positive, and whose difficulty message does not take the connection
    over the drain limit, writes the [mining.set_difficulty] line with
    the staged value and then the [mining.notify] line, sets the counter
    to 0 and the retarget clock to now, makes the staged value current
    and puts -1 back in the pending slot; with nothing staged it writes
    the [mining.notify] line only and leaves the four fields alone.  In
    both cases nothing follows the notify line but, possibly, the
    closing of the connection. *)
Theorem sendJob_flushes_then_notifies
    (JSON_stringify : value -> jsstring)
    (socket_write : list Connection.effect -> jsstring -> bool)
    (hashLeaf : Buffer -> Buffer)
    (job : Job.t) (now : Z) (c : Connection.t) (payload : list value) :
  let next := Connection.nextDifficulty c in
  let difficulty_line :=
    call_line JSON_stringify "mining.set_difficulty" [VNum next] in
  let notify_line := call_line JSON_stringify "mining.notify" payload in
  let r := Connection.sendJob JSON_stringify socket_write hashLeaf job now c in
  Connection.destroyed c = false ->
  Job.toJSON hashLeaf job = Ok payload ->
  (strict_eq next (of_Z (-1)) = false ->
   gt next (of_Z 0) = true ->
   (socket_write (Connection.trace c) difficulty_line = false ->
    Connection.drainSize c + Connection.utf8_length difficulty_line <= Z.shiftl 5 20) ->
   r.1 = Ok tt /\
   (exists tail,
       Connection.trace r.2
       = Connection.trace c
         ++ Connection.SocketWrite difficulty_line
         :: Connection.SocketWrite notify_line :: tail
       /\ (tail = [] \/ tail = closing)) /\
   Connection.submissions r.2 = 0 /\
   Connection.lastRetarget r.2 = now /\
   Connection.difficulty r.2 = next /\
   Connection.nextDifficulty r.2 = of_Z (-1))
  /\
  (strict_eq next (of_Z (-1)) = true ->
   r.1 = Ok tt /\
   (exists tail,
       Connection.trace r.2
       = Connection.trace c ++ Connection.SocketWrite notify_line :: tail
       /\ (tail = [] \/ tail = closing)) /\
   Connection.submissions r.2 = Connection.submissions c /\
   Connection.lastRetarget r.2 = Connection.lastRetarget c /\
   Connection.difficulty r.2 = Connection.difficulty c /\
   Connection.nextDifficulty r.2 = next).
Proof.
  intros next difficulty_line notify_line r Hlive Hjson. split.
  - intros Hstaged Hpos Hdrain.
    set (c0 := Connection.set_lastRetarget now (Connection.set_submissions 0 c)).
    set (c1 := Connection.write socket_write difficulty_line c0).
    set (c2 := Connection.set_nextDifficulty (of_Z (-1))
                 (Connection.set_difficulty next c1)).
    assert (Hr : r = (Ok tt, Connection.write socket_write notify_line c2)).
    { subst r. unfold Connection.sendJob. fold next. rewrite Hstaged. simpl negb.
      cbv iota. unfold Connection.sendDifficulty.
      cbn [Connection.nextDifficulty Connection.set_lastRetarget
           Connection.set_submissions]. fold next. rewrite Hpos.
      rewrite (sendMethod_live JSON_stringify socket_write
                 "mining.set_difficulty" [VNum next]) by exact Hlive.
      rewrite Hjson.
      pose proof (write_fields socket_write difficulty_line c0) as (_ & _ & _ & Hn & _).
      fold difficulty_line. fold c0. rewrite Hn. fold c1.
      cbn [Connection.nextDifficulty Connection.set_lastRetarget
           Connection.set_submissions c0]. fold next. fold c2.
      assert (Hlive1 : Connection.destroyed c1 = false).
      { destruct (write_live socket_write difficulty_line c0 Hlive)
          as [[_ H]|(_ & _ & Hw & Hover)]; [exact H |].
        specialize (Hdrain Hw). simpl in Hover. lia. }
      rewrite (sendMethod_live JSON_stringify socket_write
                 "mining.notify" payload) by exact Hlive1.
      reflexivity. }
    rewrite Hr. cbn [fst snd].
    assert (Hw1 : Connection.trace c1
                  = Connection.trace c ++ [Connection.SocketWrite difficulty_line]
                  /\ Connection.destroyed c1 = false).
    { destruct (write_live socket_write difficulty_line c0 Hlive)
        as [H|(_ & _ & Hw & Hover)]; [exact H |].
      specialize (Hdrain Hw). simpl in Hover. lia. }
    destruct Hw1 as [Ht1 Hlive1].
    assert (Hf1 : Connection.submissions c1 = 0 /\ Connection.lastRetarget c1 = now).
    { pose proof (write_fields socket_write difficulty_line c0) as (Hs1 & Hl1 & _).
      split; [exact Hs1 | exact Hl1]. }
    destruct Hf1 as [Hs1 Hl1].
    pose proof (write_fields socket_write notify_line c2) as (Hs & Hl & Hd & Hn & _).
    split; [reflexivity |]. split.
    + destruct (write_live socket_write notify_line c2 Hlive1)
        as [[H _]|(H & _)]; rewrite H; cbn [Connection.trace c2
          Connection.set_nextDifficulty Connection.set_difficulty];
        rewrite Ht1, <- app_assoc; eexists; split; try reflexivity; auto.
    + rewrite Hs, Hl, Hd, Hn.
      cbn [c2 Connection.set_nextDifficulty Connection.set_difficulty
           Connection.submissions Connection.lastRetarget
           Connection.difficulty Connection.nextDifficulty].
      rewrite Hs1, Hl1. repeat split.
  - intros Hnone.
    assert (Hr : r = (Ok tt, Connection.write socket_write notify_line c)).
    { subst r. unfold Connection.sendJob. fold next. rewrite Hnone. simpl negb.
      cbv iota. rewrite Hjson.
      rewrite (sendMethod_live JSON_stringify socket_write
                 "mining.notify" payload) by exact Hlive.
      reflexivity. }
    rewrite Hr. cbn [fst snd].
    pose proof (write_fields socket_write notify_line c) as (Hs & Hl & Hd & Hn & _).
    split; [reflexivity |]. split; [| repeat split; assumption].
    destruct (write_live socket_write notify_line c Hlive)
      as [[H _]|(H & _)]; rewrite H; eexists; split; try reflexivity; auto.
Qed.

Lemma sendJob_flushes_then_notifies_witness :
  (Connection.sendJob sample_stringify socket_accepts (fun b => b)
     sample_job 1561000200000 staged_connection).1 = Ok tt /\
  Connection.difficulty
    (Connection.sendJob sample_stringify socket_accepts (fun b => b)
       sample_job 1561000200000 staged_connection).2 = of_Z 38 /\
  (Connection.sendJob sample_stringify socket_accepts (fun b => b)
     sample_job 1561000200000 sample_connection).1 = Ok tt /\
  Connection.difficulty
    (Connection.sendJob sample_stringify socket_accepts (fun b => b)
       sample_job 1561000200000 sample_connection).2 = of_Z 64.
Proof.
  destruct (Job.toJSON (fun b => b) sample_job) as [payload|e] eqn:E;
    [| vm_compute in E; discriminate E].
  destruct (sendJob_flushes_then_notifies sample_stringify socket_accepts
              (fun b => b) sample_job 1561000200000 staged_connection payload
              eq_refl E) as [H1 _].
  destruct (sendJob_flushes_then_notifies sample_stringify socket_accepts
              (fun b => b) sample_job 1561000200000 sample_connection payload
              eq_refl E) as [_ H2].
  destruct H1 as (Ha & _ & _ & _ & Hb & _);
    [reflexivity | reflexivity | intros Hw; discriminate Hw |].
  destruct H2 as (Hc & _ & _ & _ & Hd & _); [reflexivity |].
  repeat split; assumption.
Defined.

Example sendJob_staged_trace :
  Connection.trace
    (Connection.sendJob sample_stringify socket_accepts (fun b => b)
       sample_job 1561000200000
       (Connection.set_lastRetarget 0 staged_connection)).2
  = [ Connection.SocketWrite
        (lit "{" ++ Connection.quoted "id" ++ lit ":null,"
         ++ Connection.quoted "method" ++ lit ":"
         ++ Connection.quoted "mining.set_difficulty" ++ lit ","
         ++ Connection.quoted "params" ++ lit ":[38]}" ++ [10%N]);
      Connection.SocketWrite
        (call_line sample_stringify "mining.notify"
           [ VStr (lit "5d1f0a3c00000001");
             VStr (Buffer_toString_hex (repeat Byte.x11 32));
             VStr (lit "0100"); VStr (lit "00ff");
             VArr [VStr (lit "abcd")]; VArr [];
             VStr (Buffer_toString_hex (repeat Byte.x22 32));
             VStr (Buffer_toString_hex (repeat Byte.x33 32));
             VStr (Buffer_toString_hex (repeat Byte.x00 32));
             VStr (lit "00000000"); VStr (lit "1d00ffff"); VStr (lit "5d0af840");
             VBool false ]) ].
Proof. vm_compute. reflexivity. Qed.

(** C6 as stated fails on three kinds of connection.  With 0 staged
    (which is not -1) [sendJob] throws before any message: the counter
    is reset, the value stays pending and no notify is sent.  On a
    destroyed connection the fields change but nothing is written.  On a
    connection at the drain limit whose socket pushes back, the
    difficulty line is written, the connection closes, and the notify
    line never follows. *)
Lemma sendJob_pending_not_always_flushed :
  (let r := Connection.sendJob sample_stringify socket_accepts (fun b => b)
              sample_job 1561000200000
              (Connection.setDifficulty (of_Z 0) sample_connection) in
   r.1 = Throw (AssertionError (lit "Difficulty must be at least 1.")) /\
   Connection.trace r.2 = [] /\
   Connection.submissions r.2 = 0 /\
   Connection.difficulty r.2 = of_Z 64 /\
   Connection.nextDifficulty r.2 = of_Z 0)
  /\
  (let r := Connection.sendJob sample_stringify socket_accepts (fun b => b)
              sample_job 1561000200000
              (Connection.destroy staged_connection) in
   r.1 = Ok tt /\
   Connection.trace r.2 = closing /\
   Connection.difficulty r.2 = of_Z 38)
  /\
  (let r := Connection.sendJob sample_stringify socket_pushes_back (fun b => b)
              sample_job 1561000200000
              (Connection.set_drainSize (Z.shiftl 5 20) staged_connection) in
   r.1 = Ok tt /\
   Connection.trace r.2
   = Connection.SocketWrite
       (call_line sample_stringify "mining.set_difficulty" [VNum (of_Z 38)])
     :: closing).
Proof. vm_compute. repeat split. Qed.

(* ===================================================================== *)
(** ** Framing: [Connection.feed] *)
(* ===================================================================== *)

Section RegexFacts.

Lemma skip_length (k : N) (s : jsstring) : (length (skip k s) <= length s)%nat.
Proof. induction s as [|c s IH]; simpl; [lia |]. destruct (c =? k)%N; simpl; lia. Qed.

Lemma match_plus (k : N) (s : jsstring) :
  match_here [Plus (exactly k)] s
  = match s with
    | c :: s' => if (c =? k)%N then Some (skip k s') else None
    | [] => None
    end.
Proof.
  simpl. induction s as [|c s IH]; [reflexivity |].
  unfold exactly at 1. destruct (c =? k)%N; [| reflexivity].
  rewrite IH. destruct s as [|d s]; [reflexivity |]. simpl.
  destruct (d =? k)%N; reflexivity.
Qed.

Lemma strip_cr_skip (s : jsstring) :
  Design.strip_cr (skip 13 s) = Design.strip_cr s.
Proof.
  induction s as [|c s IH]; [reflexivity |]. simpl.
  destruct (c =? 13)%N eqn:E; simpl; [exact IH | rewrite E; reflexivity].
Qed.

(** Replacing [/\r+/g] by the empty string drops the carriage returns. *)
Lemma replace_go_cr (fuel : nat) :
  forall s : jsstring,
    (length s < fuel)%nat ->
    replace_go fuel (re_body Connection.re_cr) [] s = Design.strip_cr s.
Proof.
  induction fuel as [|fuel IH]; intros s Hlen; [lia |].
  destruct s as [|c s]; [reflexivity |].
  cbn [replace_go]. change (re_body Connection.re_cr) with [Plus (exactly 13)].
  rewrite match_plus. simpl in Hlen.
  destruct (c =? 13)%N eqn:E.
  - pose proof (skip_length 13 s) as Hs.
    destruct (Nat.ltb_spec (length (skip 13 s)) (length (c :: s))) as [_|H];
      [| simpl in H; lia].
    simpl. rewrite E. simpl.
    change [Plus (exactly 13)] with (re_body Connection.re_cr).
    rewrite IH by lia. apply strip_cr_skip.
  - simpl. rewrite E. simpl. f_equal.
    change [Plus (exactly 13)] with (re_body Connection.re_cr). apply IH. lia.
Qed.

Lemma replace_cr (s : jsstring) :
  replace Connection.re_cr [] s = Design.strip_cr s.
Proof. unfold replace. apply replace_go_cr. lia. Qed.

Lemma partial_line_no_newline (s : jsstring) :
  Design.has_newline s = false -> Design.partial_line s = s.
Proof.
  destruct s as [|c s]; [reflexivity |]. simpl.
  destruct (c =? 10)%N; [discriminate |]. simpl. intros ->. reflexivity.
Qed.

Lemma partial_line_skip (s : jsstring) :
  Design.partial_line s
  = if Design.has_newline (skip 10 s) then Design.partial_line (skip 10 s)
    else skip 10 s.
Proof.
  induction s as [|c s IH]; [reflexivity |]. simpl.
  destruct (c =? 10)%N eqn:E; [exact IH |]. simpl. rewrite E. simpl.
  destruct (Design.has_newline s); reflexivity.
Qed.

Lemma split_go_nonempty (fuel : nat) (p : list atom) :
  forall piece s, split_go fuel p piece s <> [].
Proof.
  induction fuel as [|fuel IH]; intros piece s; simpl; [discriminate |].
  destruct s as [|c s]; [discriminate |].
  destruct (match_here p (c :: s)); [| apply IH].
  destruct (_ && _); [apply IH | discriminate].
Qed.

Lemma last_cons_nonempty {A} (x d : A) (l : list A) :
  l <> [] -> List.last (x :: l) d = List.last l d.
Proof. destruct l; [contradiction | reflexivity]. Qed.

(** Splitting on [/\n+/] ends with the partial line. *)
Lemma split_go_nl_last (fuel : nat) :
  forall piece s : jsstring,
    (length s < fuel)%nat ->
    List.last (split_go fuel (re_body Connection.re_nl) piece s) []
    = if Design.has_newline s then Design.partial_line s else piece ++ s.
Proof.
  induction fuel as [|fuel IH]; intros piece s Hlen; [lia |].
  destruct s as [|c s]; [simpl; rewrite app_nil_r; reflexivity |].
  cbn [split_go]. change (re_body Connection.re_nl) with [Plus (exactly 10)].
  rewrite match_plus. simpl in Hlen.
  change [Plus (exactly 10)] with (re_body Connection.re_nl).
  destruct (c =? 10)%N eqn:E.
  - pose proof (skip_length 10 s) as Hs.
    destruct (Nat.eqb_spec (length (skip 10 s)) (length (c :: s))) as [H|_];
      [simpl in H; lia |].
    cbn [andb]. rewrite last_cons_nonempty by apply split_go_nonempty.
    rewrite IH by lia. simpl. rewrite E. simpl.
    rewrite (partial_line_skip s). reflexivity.
  - rewrite IH by lia. simpl. rewrite E. simpl.
    destruct (Design.has_newline s); [reflexivity |].
    rewrite <- app_assoc. reflexivity.
Qed.

Lemma split_nl_last (s : jsstring) :
  List.last (split Connection.re_nl s) [] = Design.partial_line s.
Proof.
  unfold split. change (match_here (re_body Connection.re_nl) []) with (@None jsstring).
  assert (H : List.last (split_go (2 * length s + 2) (re_body Connection.re_nl) [] s) []
              = Design.partial_line s).
  { rewrite split_go_nl_last by lia.
    destruct (Design.has_newline s) eqn:E; [reflexivity |].
    symmetry. apply partial_line_no_newline, E. }
  destruct s; exact H.
Qed.

End RegexFacts.

Section HttpFacts.

Lemma ci_char_letter (p c : N) :
  (65 <= p <= 90)%N -> ci_char p c = true <-> Design.is_letter p c.
Proof.
  intros Hp. unfold ci_char, ascii_upper, Design.is_letter.
  destruct (N.leb_spec 97 p), (N.leb_spec p 122),
           (N.leb_spec 97 c), (N.leb_spec c 122), (N.ltb_spec c 128);
    simpl; rewrite ?N.eqb_eq; split; intros Hc; try discriminate; lia.
Qed.

Lemma match_chr (cs : N -> bool) (p : list atom) (s r : jsstring) :
  match_here (Chr cs :: p) s = Some r <->
  exists c s', s = c :: s' /\ cs c = true /\ match_here p s' = Some r.
Proof.
  simpl. split.
  - destruct s as [|c s']; [discriminate |].
    destruct (cs c) eqn:E; [eauto | discriminate].
  - intros (c & s' & -> & -> & H). exact H.
Qed.

Lemma match_http (s : jsstring) :
  (exists r, match_here (re_body Connection.re_http) s = Some r) <->
  exists w post, s = w ++ post /\ Design.http_token w.
Proof.
  unfold Connection.re_http, re_body. split.
  - intros [r H].
    apply match_chr in H as (h & s1 & -> & Hh & H).
    apply match_chr in H as (t1 & s2 & -> & Ht1 & H).
    apply match_chr in H as (t2 & s3 & -> & Ht2 & H).
    apply match_chr in H as (p & s4 & -> & Hp & H).
    apply match_chr in H as (c5 & s5 & -> & H5 & H).
    apply match_chr in H as (c6 & s6 & -> & H6 & H).
    apply match_chr in H as (c7 & s7 & -> & H7 & H).
    apply match_chr in H as (c8 & s8 & -> & H8 & H).
    apply N.eqb_eq in H5, H6, H7, H8. subst.
    apply ci_char_letter in Hh, Ht1, Ht2, Hp; try lia.
    exists [h; t1; t2; p; 47; 49; 46; 49]%N, s8. split; [reflexivity |].
    exists h, t1, t2, p. auto.
  - intros (w & post & -> & h & t1 & t2 & p & -> & Hh & Ht1 & Ht2 & Hp).
    apply ci_char_letter in Hh, Ht1, Ht2, Hp; try lia.
    exists post. simpl. rewrite Hh, Ht1, Ht2, Hp. reflexivity.
Qed.

Lemma search_some (p : list atom) (s : jsstring) :
  (exists x, search p s = Some x) <->
  exists pre rest r, s = pre ++ rest /\ match_here p rest = Some r.
Proof.
  induction s as [|c s IH].
  - simpl. split.
    + destruct (match_here p []) as [r|] eqn:E; [| intros [x H]; discriminate H].
      intros _. exists [], [], r. auto.
    + intros (pre & rest & r & Heq & H).
      symmetry in Heq. apply app_eq_nil in Heq as [-> ->].
      rewrite H. eauto.
  - simpl. destruct (match_here p (c :: s)) as [r|] eqn:E.
    + split; [| eauto]. intros _. exists [], (c :: s), r. auto.
    + split.
      * destruct (search p s) as [[pre post]|] eqn:Es; [| intros [x H]; discriminate H].
        intros _. destruct (proj1 IH) as (pre' & rest & r & -> & H); [eauto |].
        exists (c :: pre'), rest, r. auto.
      * intros (pre & rest & r & Heq & H).
        destruct pre as [|c' pre]; simpl in Heq.
        -- subst rest. congruence.
        -- injection Heq as -> ->.
           destruct (proj2 IH) as [[pre' post] Hx]; [eauto |].
           rewrite Hx. eauto.
Qed.

(** The test [/HTTP\/1\.1/i] holds of the texts that mention the token. *)
Lemma test_http (s : jsstring) :
  test Connection.re_http s = true <-> Design.mentions_http s.
Proof.
  unfold test, Design.mentions_http. simpl re_bol. cbv iota.
  set (p := re_body Connection.re_http).
  split.
  - destruct (search p s) as [x|] eqn:E; [| discriminate]. intros _.
    destruct (proj1 (search_some p s)) as (pre & rest & r & -> & H); [eauto |].
    destruct (proj1 (match_http rest)) as (w & post & -> & Hw); [eauto |].
    eauto.
  - intros (pre & w & post & -> & Hw).
    destruct (proj2 (match_http (w ++ post))) as [r Hr]; [eauto |].
    destruct (proj2 (search_some p (pre ++ w ++ post))) as [x Hx].
    { exists pre, (w ++ post), r. auto. }
    rewrite Hx. reflexivity.
Qed.

End HttpFacts.

Section SpacesFacts.

Lemma spaces_length (n : Z) : 0 <= n -> strlen (spaces n) = n.
Proof.
  intros H. unfold strlen, spaces. rewrite repeat_length. apply Z2Nat.id, H.
Qed.

Lemma spaces_strip_cr (n : Z) : Design.strip_cr (spaces n) = spaces n.
Proof.
  unfold spaces. induction (Z.to_nat n) as [|k IH]; [reflexivity |].
  cbn [repeat]. unfold Design.strip_cr in *. cbn [List.filter].
  change (negb (32 =? 13)%N) with true. cbv iota. f_equal. exact IH.
Qed.

Lemma spaces_no_newline (n : Z) : Design.has_newline (spaces n) = false.
Proof.
  unfold spaces. induction (Z.to_nat n) as [|k IH]; [reflexivity |].
  cbn [repeat]. unfold Design.has_newline in *. cbn [existsb].
  rewrite IH. reflexivity.
Qed.

Lemma spaces_no_http (n : Z) : ~ Design.mentions_http (spaces n).
Proof.
  intros (pre & w & post & Heq & h & t1 & t2 & p & -> & [Hh|Hh] & _);
    assert (Hin : In h (spaces n))
      by (rewrite Heq; apply in_or_app; right; left; reflexivity);
    apply repeat_spec in Hin; subst h; discriminate Hin.
Qed.

End SpacesFacts.

Section FeedFacts.

Variable JSON_parse : jsstring -> option value.
Variable socket_write : list Connection.effect -> jsstring -> bool.
Variable publicHost : jsstring.
Variable publicPort : N.

Lemma handle_lines (lines : list jsstring) :
  forall c : Connection.t,
    let c' := fold_left (fun c line => Connection.handle_line JSON_parse line c) lines c in
    (exists evs, Connection.trace c' = Connection.trace c ++ evs
                 /\ Forall line_event evs) /\
    Connection.recv c' = Connection.recv c /\
    Connection.destroyed c' = Connection.destroyed c.
Proof.
  induction lines as [|line lines IH]; intros c; simpl.
  - split; [| split; reflexivity]. exists []. rewrite app_nil_r. auto.
  - destruct (IH (Connection.handle_line JSON_parse line c)) as ([evs [Ht Hf]] & Hr & Hd).
    rewrite Ht, Hr, Hd. clear IH Ht Hr Hd.
    unfold Connection.handle_line.
    destruct (strlen line =? 0); [split; [eauto | split; reflexivity] |].
    destruct (ClientPacket.fromRaw JSON_parse line) as [msg|e].
    + simpl. split; [| split; reflexivity].
      exists (Connection.EmitPacket msg :: evs).
      rewrite <- app_assoc. split; [reflexivity |]. constructor; [exact I | exact Hf].
    + unfold Connection.error_rethrow.
      destruct (Connection.destroyed c) eqn:Ed;
        [split; [eauto | split; [reflexivity | exact Ed]] |].
      simpl. split; [| split; [reflexivity | exact Ed]].
      exists (Connection.EmitError
                (Connection.Rethrown e (lit " (" ++ Connection.id c ++ lit ")"))
              :: evs).
      rewrite <- app_assoc. split; [reflexivity |]. constructor; [exact I | exact Hf].
Qed.

Lemma redirect_live (c : Connection.t) :
  Connection.destroyed c = false ->
  let c' := Connection.redirect socket_write publicHost publicPort c in
  Connection.trace c'
  = Connection.trace c
    ++ Connection.SocketWrite (Connection.redirect_response publicHost publicPort)
    :: closing /\
  Connection.destroyed c' = true /\
  Connection.recv c' = Connection.recv c.
Proof.
  intros H c'. subst c'. unfold Connection.redirect.
  pose proof (write_fields socket_write
                (Connection.redirect_response publicHost publicPort) c)
    as (_ & _ & _ & _ & Hr).
  pose proof (destroy_fields
                (Connection.write socket_write
                   (Connection.redirect_response publicHost publicPort) c))
    as (_ & _ & _ & _ & Hr').
  rewrite Hr', Hr.
  destruct (write_live socket_write
              (Connection.redirect_response publicHost publicPort) c H)
    as [[Ht Hd]|(Ht & Hd & _)].
  - destruct (destroy_live _ Hd) as [Ht' Hd']. rewrite Ht', Hd', Ht.
    rewrite <- app_assoc. auto.
  - unfold Connection.destroy. rewrite Hd. auto.
Qed.

(** The three ways out of [feed] on a live connection. *)
Lemma feed_cases (data : jsstring) (c : Connection.t) :
  Connection.destroyed c = false ->
  let buf := Connection.recv c ++ data in
  let c' := Connection.feed JSON_parse socket_write publicHost publicPort data c in
  (100000 <= strlen buf /\
   Connection.trace c'
   = Connection.trace c
     ++ Connection.EmitError
          (Connection.Formatted (Connection.too_much_data (Connection.set_recv buf c)))
     :: closing /\
   Connection.destroyed c' = true /\ Connection.recv c' = buf)
  \/
  (strlen buf < 100000 /\ Design.mentions_http buf /\
   Connection.trace c'
   = Connection.trace c
     ++ Connection.SocketWrite (Connection.redirect_response publicHost publicPort)
     :: closing /\
   Connection.destroyed c' = true /\ Connection.recv c' = buf)
  \/
  (strlen buf < 100000 /\ ~ Design.mentions_http buf /\
   (exists evs, Connection.trace c' = Connection.trace c ++ evs /\ Forall line_event evs) /\
   Connection.destroyed c' = false /\
   Connection.recv c' = Design.partial_line (Design.strip_cr buf)).
Proof.
  intros Hlive buf c'. subst c'. unfold Connection.feed.
  cbn [Connection.recv Connection.set_recv]. fold buf.
  destruct (Z.geb_spec (strlen buf) 100000) as [Hbig|Hsmall].
  - left. split; [lia |].
    unfold Connection.error_too_much_data.
    cbn [Connection.destroyed Connection.set_recv]. rewrite Hlive.
    destruct (destroy_live
                (Connection.emit
                   (Connection.EmitError
                      (Connection.Formatted
                         (Connection.too_much_data (Connection.set_recv buf c))))
                   (Connection.set_recv buf c)) Hlive) as [Ht Hd].
    rewrite Ht, Hd.
    pose proof (destroy_fields
                  (Connection.emit
                     (Connection.EmitError
                        (Connection.Formatted
                           (Connection.too_much_data (Connection.set_recv buf c))))
                     (Connection.set_recv buf c))) as (_ & _ & _ & _ & Hr).
    rewrite Hr. simpl. rewrite <- app_assoc. auto.
  - right. destruct (test Connection.re_http buf) eqn:Ehttp.
    + left. split; [lia |]. split; [apply test_http, Ehttp |].
      apply (redirect_live (Connection.set_recv buf c)). exact Hlive.
    + right. split; [lia |]. split.
      { intros H. apply test_http in H. congruence. }
      destruct (handle_lines
                  (List.removelast (split Connection.re_nl (replace Connection.re_cr [] buf)))
                  (Connection.set_recv
                     (List.last (split Connection.re_nl (replace Connection.re_cr [] buf)) [])
                     (Connection.set_recv buf c)))
        as (Hev & Hr & Hd).
      rewrite Hr, Hd. split; [exact Hev |]. split; [exact Hlive |].
      cbn [Connection.recv Connection.set_recv].
      rewrite replace_cr. apply split_nl_last.
Qed.

Lemma feed_keeps_partial (data : jsstring) (c : Connection.t) :
  Connection.destroyed c = false ->
  strlen (Connection.recv c ++ data) < 100000 ->
  ~ Design.mentions_http (Connection.recv c ++ data) ->
  Design.has_newline (Design.strip_cr (Connection.recv c ++ data)) = false ->
  let c' := Connection.feed JSON_parse socket_write publicHost publicPort data c in
  Connection.destroyed c' = false /\
  Connection.recv c' = Design.strip_cr (Connection.recv c ++ data).
Proof.
  intros Hlive Hlen Hhttp Hnl c'.
  destruct (feed_cases data c Hlive) as [(Hbig & _)|[(_ & Hm & _)|(_ & _ & _ & Hd & Hr)]].
  - lia.
  - contradiction.
  - split; [exact Hd |]. subst c'. rewrite Hr.
    apply partial_line_no_newline, Hnl.
Qed.

Lemma feed_at_cap (data : jsstring) (c : Connection.t) :
  Connection.destroyed c = false ->
  100000 <= strlen (Connection.recv c ++ data) ->
  let c' := Connection.feed JSON_parse socket_write publicHost publicPort data c in
  Connection.trace c'
  = Connection.trace c
    ++ Connection.EmitError (Connection.Formatted (Connection.too_much_data c))
    :: closing /\
  Connection.destroyed c' = true.
Proof.
  intros Hlive Hbig c'.
  destruct (feed_cases data c Hlive) as [(_ & Ht & Hd & _)|[(Hlen & _)|(Hlen & _)]];
    [auto | lia | lia].
Qed.

End FeedFacts.

(** C8, as amended: on a connection that is not destroyed, [feed]
    answers with the redirect exactly when the buffered text (what was
    retained plus what arrived) is shorter than 100,000 code units and
    mentions [HTTP/1.1] somewhere, in any letter case, whether or not
    protocol lines were handled before.  The connection is then written
    the fixed response once, with the [X-Stratum] header for the public
    address, [Connection: Close] and the JSON body, and destroyed.  The
    probe [GET / HTTP/1.1] on a fresh connection is such a case. *)
Theorem feed_redirects_on_http_mention
    (JSON_parse : jsstring -> option value)
    (socket_write : list Connection.effect -> jsstring -> bool)
    (publicHost : jsstring) (publicPort : N)
    (data : jsstring) (c : Connection.t) :
  let buf := Connection.recv c ++ data in
  let c' := Connection.feed JSON_parse socket_write publicHost publicPort data c in
  let response := Connection.redirect_response publicHost publicPort in
  Connection.destroyed c = false ->
  ((exists tail,
       Connection.trace c'
       = Connection.trace c ++ Connection.SocketWrite response :: tail)
   <-> strlen buf < 100000 /\ Design.mentions_http buf) /\
  (strlen buf < 100000 -> Design.mentions_http buf ->
   Connection.trace c'
   = Connection.trace c ++ Connection.SocketWrite response :: closing /\
   Connection.destroyed c' = true) /\
  response
  = lit "HTTP/1.1 200 OK" ++ Connection.crlf
    ++ lit "X-Stratum: stratum+tcp://" ++ publicHost ++ lit ":"
    ++ Connection.decimal publicPort ++ Connection.crlf
    ++ lit "Connection: Close" ++ Connection.crlf
    ++ lit "Content-Type: application/json; charset=utf-8" ++ Connection.crlf
    ++ lit "Content-Length: 38" ++ Connection.crlf
    ++ Connection.crlf ++ Connection.crlf ++ redirect_body /\
  (forall host : jsstring,
      let fresh :=
        Connection.feed JSON_parse socket_write publicHost publicPort
          http_probe (Connection.new host) in
      Connection.trace fresh = Connection.SocketWrite response :: closing /\
      Connection.destroyed fresh = true).
Proof.
  intros buf c' response Hlive.
  pose proof (feed_cases JSON_parse socket_write publicHost publicPort data c Hlive)
    as Hcases.
  fold buf in Hcases. fold c' in Hcases. fold response in Hcases.
  split; [| split; [| split]].
  - split.
    + intros [tail Ht].
      destruct Hcases as [(_ & Ht' & _)|[(Hlen & Hm & _)|(_ & _ & (evs & Ht' & Hf) & _)]].
      * rewrite Ht' in Ht. apply app_inv_head in Ht. discriminate Ht.
      * auto.
      * rewrite Ht' in Ht. apply app_inv_head in Ht. subst evs.
        inversion Hf as [|? ? Hbad _]. destruct Hbad.
    + intros [Hlen Hm].
      destruct Hcases as [(Hbig & _)|[(_ & _ & Ht & _)|(_ & Hno & _)]];
        [lia | eauto | contradiction].
  - intros Hlen Hm.
    destruct Hcases as [(Hbig & _)|[(_ & _ & Ht & Hd & _)|(_ & Hno & _)]];
      [lia | auto | contradiction].
  - subst response. unfold Connection.redirect_response, redirect_body. simpl join.
    rewrite <- !app_assoc. reflexivity.
  - intros host fresh.
    destruct (feed_cases JSON_parse socket_write publicHost publicPort
                http_probe (Connection.new host) eq_refl)
      as [(Hbig & _)|[(_ & _ & Ht & Hd & _)|(_ & Hno & _)]].
    + vm_compute in Hbig. contradiction Hbig. reflexivity.
    + split; [exact Ht | exact Hd].
    + exfalso. apply Hno.
      exists (lit "GET / "), (lit "HTTP/1.1"), (Connection.crlf ++ Connection.crlf).
      split; [reflexivity |].
      exists 72%N, 84%N, 84%N, 80%N. unfold Design.is_letter.
      split; [reflexivity |]. repeat split; left; reflexivity.
Qed.

Lemma feed_redirects_on_http_mention_witness :
  Connection.destroyed (Connection.new (lit "203.0.113.7")) = false /\
  Connection.trace
    (Connection.feed (fun _ => None) socket_accepts (lit "pool.example") 3008
       http_probe (Connection.new (lit "203.0.113.7")))
  = Connection.SocketWrite (Connection.redirect_response (lit "pool.example") 3008)
    :: closing.
Proof.
  split; [reflexivity |].
  destruct (feed_redirects_on_http_mention (fun _ => None) socket_accepts
              (lit "pool.example") 3008 http_probe
              (Connection.new (lit "203.0.113.7")) eq_refl) as (_ & H & _).
  apply H; [vm_compute; reflexivity |].
  exists (lit "GET / "), (lit "HTTP/1.1"), (Connection.crlf ++ Connection.crlf).
  split; [reflexivity |].
  exists 72%N, 84%N, 84%N, 80%N. unfold Design.is_letter.
  split; [reflexivity |]. repeat split; left; reflexivity.
Defined.

(** C8 as stated fails: after a valid protocol line was found and its
    packet emitted, a line of JSON with [HTTP/1.1] inside a string still
    draws the redirect and the closing of the connection. *)
Lemma feed_redirects_after_valid_line :
  let c1 :=
    Connection.feed sample_parse socket_accepts (lit "pool.example") 3008
      (subscribe_line ++ [10%N]) (Connection.new (lit "203.0.113.7")) in
  let c2 :=
    Connection.feed sample_parse socket_accepts (lit "pool.example") 3008
      (authorize_line ++ [10%N]) c1 in
  Connection.trace c1 = [Connection.EmitPacket subscribe_packet] /\
  Connection.recv c1 = [] /\
  Connection.destroyed c1 = false /\
  Connection.trace c2
  = Connection.EmitPacket subscribe_packet
    :: Connection.SocketWrite (Connection.redirect_response (lit "pool.example") 3008)
    :: closing /\
  Connection.destroyed c2 = true.
Proof. vm_compute. repeat split. Qed.

(** C9, as amended: on a connection that is not destroyed, [feed]
    closes for oversized buffering exactly when the retained text
    together with the text that arrived is 100,000 code units long or
    more; the test comes before any line is split off, so the complete
    lines of the arriving text count as well.  When a call neither
    closes nor redirects, the complete lines are consumed and what stays
    buffered is the partial line after the last newline. *)
Theorem feed_closes_at_cap
    (JSON_parse : jsstring -> option value)
    (socket_write : list Connection.effect -> jsstring -> bool)
    (publicHost : jsstring) (publicPort : N)
    (data : jsstring) (c : Connection.t) :
  let buf := Connection.recv c ++ data in
  let c' := Connection.feed JSON_parse socket_write publicHost publicPort data c in
  Connection.destroyed c = false ->
  ((exists message tail,
       Connection.trace c'
       = Connection.trace c
         ++ Connection.EmitError (Connection.Formatted message) :: tail)
   <-> 100000 <= strlen buf) /\
  (100000 <= strlen buf ->
   Connection.trace c'
   = Connection.trace c
     ++ Connection.EmitError
          (Connection.Formatted (Connection.too_much_data c))
     :: closing /\
   Connection.destroyed c' = true) /\
  (strlen buf < 100000 -> ~ Design.mentions_http buf ->
   Connection.destroyed c' = false /\
   Connection.recv c' = Design.partial_line (Design.strip_cr buf)).
Proof.
  intros buf c' Hlive.
  pose proof (feed_cases JSON_parse socket_write publicHost publicPort data c Hlive)
    as Hcases.
  fold buf in Hcases. fold c' in Hcases.
  split; [| split].
  - split.
    + intros (message & tail & Ht).
      destruct Hcases as [(Hbig & _)|[(_ & _ & Ht' & _)|(_ & _ & (evs & Ht' & Hf) & _)]].
      * exact Hbig.
      * rewrite Ht' in Ht. apply app_inv_head in Ht. discriminate Ht.
      * rewrite Ht' in Ht. apply app_inv_head in Ht. subst evs.
        inversion Hf as [|? ? Hbad _]. destruct Hbad.
    + intros Hbig.
      destruct Hcases as [(_ & Ht & _)|[(Hlen & _)|(Hlen & _)]]; [eauto | lia | lia].
  - intros Hbig.
    destruct Hcases as [(_ & Ht & Hd & _)|[(Hlen & _)|(Hlen & _)]]; [auto | lia | lia].
  - intros Hlen Hno.
    destruct Hcases as [(Hbig & _)|[(_ & Hm & _)|(_ & _ & _ & Hd & Hr)]];
      [lia | contradiction | auto].
Qed.

Lemma feed_closes_at_cap_witness :
  Connection.recv
    (Connection.feed sample_parse socket_accepts (lit "pool.example") 3008
       (subscribe_line ++ [10%N] ++ lit "{")
       (Connection.new (lit "203.0.113.7")))
  = Design.partial_line
      (Design.strip_cr ([] ++ subscribe_line ++ [10%N] ++ lit "{")).
Proof.
  destruct (feed_closes_at_cap sample_parse socket_accepts (lit "pool.example") 3008
              (subscribe_line ++ [10%N] ++ lit "{")
              (Connection.new (lit "203.0.113.7")) eq_refl) as (_ & _ & H).
  apply H; [vm_compute; reflexivity |].
  intros Hm.
  apply (proj2 (test_http _)) in Hm. vm_compute in Hm. discriminate Hm.
Defined.

(** C9 as stated fails.  With 60,000 code units of a partial line
    retained, an arrival that completes the line at 60,049 code units,
    within the cap, and goes on for 40,000 more closes the connection
    with that line unread: the second call emits the size error and
    nothing else.  And two arrivals of 50,000 code units each, a buffer
    of exactly 100,000 that does not exceed the cap, close it too. *)
Lemma feed_counts_complete_lines :
  let feed :=
    Connection.feed sample_parse socket_accepts (lit "pool.example") 3008 in
  let c1 := feed (spaces 60000) (Connection.new (lit "203.0.113.7")) in
  let c2 := feed (subscribe_line ++ [10%N] ++ spaces 40000) c1 in
  let d1 := feed (spaces 50000) (Connection.new (lit "203.0.113.7")) in
  let d2 := feed (spaces 50000) d1 in
  (Connection.destroyed c1 = false /\
   Connection.recv c1 = spaces 60000 /\
   strlen (Connection.recv c1 ++ subscribe_line ++ [10%N]) = 60049 /\
   Connection.trace c2
   = Connection.trace c1
     ++ Connection.EmitError (Connection.Formatted (Connection.too_much_data c1))
     :: closing /\
   Connection.destroyed c2 = true) /\
  (Connection.destroyed d1 = false /\
   strlen (Connection.recv d1 ++ spaces 50000) = 100000 /\
   Connection.destroyed d2 = true).
Proof.
  intros feed c1 c2 d1 d2.
  assert (Hpartial : forall n, 0 <= n < 100000 ->
            let c := feed (spaces n) (Connection.new (lit "203.0.113.7")) in
            Connection.destroyed c = false /\ Connection.recv c = spaces n).
  { intros n Hn c.
    destruct (feed_keeps_partial sample_parse socket_accepts (lit "pool.example") 3008
                (spaces n) (Connection.new (lit "203.0.113.7")) eq_refl)
      as [Hd Hr]; cbn [Connection.recv Connection.new app].
    - rewrite spaces_length; lia.
    - apply spaces_no_http.
    - rewrite spaces_strip_cr. apply spaces_no_newline.
    - split; [exact Hd |]. subst c. unfold feed. rewrite Hr.
      cbn [Connection.recv Connection.new app]. apply spaces_strip_cr. }
  destruct (Hpartial 60000 ltac:(lia)) as [Hc1 Er]. fold c1 in Hc1, Er.
  destruct (Hpartial 50000 ltac:(lia)) as [Hd1 Es]. fold d1 in Hd1, Es.
  clear Hpartial.
  assert (Lc : strlen (Connection.recv c1 ++ subscribe_line ++ [10%N]) = 60049).
  { rewrite Er. unfold strlen. rewrite length_app. fold (strlen (spaces 60000)).
    rewrite Nat2Z.inj_add. fold (strlen (spaces 60000)).
    rewrite spaces_length by lia. reflexivity. }
  assert (Ld : strlen (Connection.recv d1 ++ spaces 50000) = 100000).
  { rewrite Es. unfold strlen. rewrite length_app, Nat2Z.inj_add.
    fold (strlen (spaces 50000)). rewrite spaces_length by lia. reflexivity. }
  destruct (feed_at_cap sample_parse socket_accepts (lit "pool.example") 3008
              (subscribe_line ++ [10%N] ++ spaces 40000) c1 Hc1) as [Ht2 Hc2].
  { rewrite Er. unfold strlen. rewrite !length_app, !Nat2Z.inj_add.
    fold (strlen (spaces 60000)). fold (strlen (spaces 40000)).
    rewrite !spaces_length by lia.
    assert (0 <= Z.of_nat (length subscribe_line)) by lia.
    assert (0 <= Z.of_nat (length [10%N])) by lia. lia. }
  destruct (feed_at_cap sample_parse socket_accepts (lit "pool.example") 3008
              (spaces 50000) d1 Hd1) as [_ Hd2].
  { rewrite Ld. lia. }
  split; [split; [exact Hc1 | split; [exact Er | split; [exact Lc | split; [exact Ht2 | exact Hc2]]]] |].
  split; [exact Hd1 | split; [exact Ld | exact Hd2]].
Qed.

(* ===================================================================== *)
(** ** Integers as binary64 numbers *)
(* ===================================================================== *)

Section ExactIntegers.

Lemma digits2_pos_size (p : positive) : digits2_pos p = Pos.size p.
Proof. induction p as [p IH|p IH|]; simpl; rewrite ?IH; reflexivity. Qed.

Lemma digits2_pos_iter_xO (m k : positive) :
  digits2_pos (Pos.iter xO m k) = (digits2_pos m + k)%positive.
Proof.
  induction k as [|k IH] using Pos.peano_ind.
  - simpl. rewrite Pos.add_1_r. reflexivity.
  - rewrite Pos.iter_succ. simpl. rewrite IH, Pos.add_succ_r. reflexivity.
Qed.

Lemma Zpos_iter_xO (m k : positive) :
  Z.pos (Pos.iter xO m k) = Z.pos m * 2 ^ Z.pos k.
Proof.
  induction k as [|k IH] using Pos.peano_ind.
  - simpl. lia.
  - rewrite Pos.iter_succ, Pos2Z.inj_xO, IH, Pos2Z.inj_succ, Z.pow_succ_r by lia. lia.
Qed.

Lemma digits2_pos_bound (p : positive) :
  Z.pos p < 2 ^ 53 -> Z.pos (digits2_pos p) <= 53.
Proof.
  intros H. rewrite digits2_pos_size.
  pose proof (Pos.size_le p) as Hle.
  apply Pos2Z.pos_le_pos in Hle. rewrite Pos2Z.inj_pow in Hle.
  change (Z.pos p~0) with (2 * Z.pos p) in Hle.
  destruct (Z.le_gt_cases (Z.pos (Pos.size p)) 53) as [|Hgt]; [assumption |].
  assert (H54 : 2 ^ 54 <= 2 ^ Z.pos (Pos.size p)) by (apply Z.pow_le_mono_r; lia).
  change (2 ^ 54) with (2 * 2 ^ 53) in H54. lia.
Qed.

(** A mantissa of 53 bits within the exponent range is its own
    rounding. *)
Lemma binary_round_aux_exact (mz : positive) (ez : Z) :
  Z.pos (digits2_pos mz) = 53 -> -1074 <= ez <= 971 ->
  binary_round_aux prec emax false (Z.pos mz) ez loc_Exact = S754_finite false mz ez.
Proof.
  intros Hd He. unfold binary_round_aux.
  assert (Hs : forall l, l = loc_Exact ->
            shr_fexp prec emax (Z.pos mz) ez l
            = ({| shr_m := Z.pos mz; shr_r := false; shr_s := false |}, ez)).
  { intros l ->. unfold shr_fexp, Zdigits2, fexp, emin, prec, emax. rewrite Hd.
    replace (Z.max (53 + ez - 53) (3 - 1024 - 53) - ez) with 0 by lia.
    reflexivity. }
  rewrite (Hs loc_Exact eq_refl).
  cbn [shr_m loc_of_shr_record round_nearest_even].
  rewrite (Hs loc_Exact eq_refl). cbn [shr_m].
  destruct (Z.leb_spec ez (emax - prec)) as [_|H]; [reflexivity |].
  unfold emax, prec in H. lia.
Qed.

(** A positive integer below 2^53 is represented exactly. *)
Lemma of_Z_pos_exact (p : positive) :
  Z.pos p < 2 ^ 53 ->
  exists mz ez,
    of_Z (Z.pos p) = S754_finite false mz ez /\
    ez <= 0 /\ Z.pos mz = Z.pos p * 2 ^ (- ez).
Proof.
  intros H. pose proof (digits2_pos_bound p H) as Hd.
  unfold of_Z, binary_normalize, binary_round.
  assert (Hf : fexp prec emax (Z.pos (digits2_pos p) + 0) = Z.pos (digits2_pos p) - 53).
  { unfold fexp, emin, prec, emax. lia. }
  rewrite Hf. unfold shl_align.
  destruct (Z.pos (digits2_pos p) - 53 - 0) as [|k|k] eqn:E; [| lia |].
  - exists p, 0. split; [| split; [lia | simpl; lia]].
    apply binary_round_aux_exact; lia.
  - exists (Pos.iter xO p k), (Z.pos (digits2_pos p) - 53).
    split; [| split; [lia |]].
    + apply binary_round_aux_exact; [| lia].
      rewrite digits2_pos_iter_xO, Pos2Z.inj_add. lia.
    + rewrite Zpos_iter_xO. f_equal. f_equal. lia.
Qed.

Lemma ToUint32_of_Z (n : Z) : 0 <= n < 2 ^ 32 -> ToUint32 (of_Z n) = n.
Proof.
  intros Hn. destruct n as [|p|p]; [reflexivity | | lia].
  destruct (of_Z_pos_exact p) as (mz & ez & -> & He & Hm).
  { assert (2 ^ 32 < 2 ^ 53) by (apply Z.pow_lt_mono_r; lia). lia. }
  unfold ToUint32. rewrite Hm.
  replace ez with (- (- ez)) at 2 by lia.
  rewrite Z.shiftl_opp_r, Z.shiftr_div_pow2 by lia.
  rewrite Z.div_mul by (apply Z.pow_nonzero; lia).
  apply Z.mod_small. lia.
Qed.

Lemma strict_eq_refl (x : number) : x <> S754_nan -> strict_eq x x = true.
Proof.
  intros H. unfold strict_eq, SFeqb. rewrite (SFcompare_refl x H). reflexivity.
Qed.

(** The numbers that pass [num >>> 0 === num] include every integer of
    [0, 2^32). *)
Lemma uint32_check (n : Z) :
  0 <= n < 2 ^ 32 -> strict_eq (ushr0 (of_Z n)) (of_Z n) = true.
Proof.
  intros Hn. unfold ushr0. rewrite (ToUint32_of_Z n Hn).
  apply strict_eq_refl, of_Z_not_nan.
Qed.

Lemma ToUint32_range (x : number) : 0 <= ToUint32 x < 2 ^ 32.
Proof.
  unfold ToUint32. destruct x; try (split; [lia | reflexivity]).
  apply Z.mod_pos_bound. reflexivity.
Qed.

End ExactIntegers.

(* ===================================================================== *)
(** ** Hexadecimal: [util.hex32] *)
(* ===================================================================== *)

Section HexFacts.

Lemma hex_char_lower (d : Z) : 0 <= d < 16 -> lower_hex (hex_char d).
Proof.
  intros H. unfold hex_char, lower_hex.
  destruct (Z.ltb_spec d 10); [left | right]; lia.
Qed.

Lemma hex_char_value (d : Z) : 0 <= d < 16 -> hex_digit_value (hex_char d) = Some d.
Proof.
  intros H. unfold hex_char, hex_digit_value.
  destruct (Z.ltb_spec d 10).
  - replace (Z.to_N (48 + d)) with (48 + Z.to_N d)%N by lia.
    destruct (N.leb_spec 48 (48 + Z.to_N d)), (N.leb_spec (48 + Z.to_N d) 57);
      try lia. simpl. f_equal. lia.
  - replace (Z.to_N (87 + d)) with (87 + Z.to_N d)%N by lia.
    destruct (N.leb_spec 48 (87 + Z.to_N d)), (N.leb_spec (87 + Z.to_N d) 57);
      try lia; simpl;
      destruct (N.leb_spec 97 (87 + Z.to_N d)), (N.leb_spec (87 + Z.to_N d) 102);
      try lia; simpl; f_equal; lia.
Qed.

Lemma lower_hex_value (c : N) : lower_hex c -> exists d, hex_digit_value c = Some d.
Proof.
  intros [H|H]; unfold hex_digit_value.
  - destruct (N.leb_spec 48 c), (N.leb_spec c 57); try lia. simpl. eauto.
  - destruct (N.leb_spec 48 c), (N.leb_spec c 57); try lia; simpl;
      destruct (N.leb_spec 97 c), (N.leb_spec c 102); try lia; simpl; eauto.
Qed.

Lemma hex_digits_length (n : nat) : forall z, length (hex_digits n z) = n.
Proof.
  induction n as [|n IH]; intros z; simpl; [reflexivity |].
  rewrite length_app, IH. simpl. lia.
Qed.

Lemma hex_digits_lower (n : nat) : forall z, Forall lower_hex (hex_digits n z).
Proof.
  induction n as [|n IH]; intros z; simpl; [constructor |].
  apply Forall_app. split; [apply IH |].
  constructor; [| constructor]. apply hex_char_lower, Z.mod_pos_bound. lia.
Qed.

Lemma hex_fold_digits (n : nat) :
  forall z acc, hex_fold acc (hex_digits n z) = acc * 16 ^ Z.of_nat n + z mod 16 ^ Z.of_nat n.
Proof.
  induction n as [|n IH]; intros z acc.
  - simpl. rewrite Z.mod_1_r. lia.
  - cbn [hex_digits]. unfold hex_fold in *. rewrite fold_left_app, IH. cbn [fold_left].
    rewrite hex_char_value by (apply Z.mod_pos_bound; lia).
    rewrite Nat2Z.inj_succ, Z.pow_succ_r by lia.
    rewrite (Z.rem_mul_r z 16 (16 ^ Z.of_nat n)) by lia. lia.
Qed.

Lemma hex_width_le (k : nat) :
  forall fuel z, (1 <= k)%nat -> 0 <= z < 16 ^ Z.of_nat k -> (hex_width fuel z <= k)%nat.
Proof.
  induction k as [|k IH]; intros fuel z Hk Hz; [lia |].
  destruct fuel as [|fuel]; simpl; [lia |].
  destruct (Z.ltb_spec z 16) as [|Hbig]; [lia |].
  destruct k as [|k]; [simpl in Hz; lia |].
  apply le_n_S, IH; [lia |].
  rewrite Nat2Z.inj_succ, Z.pow_succ_r in Hz by lia.
  split; [apply Z.div_pos; lia |]. apply Z.div_lt_upper_bound; lia.
Qed.

Lemma hex_width_enough (fuel : nat) :
  forall z, 0 <= z < 16 ^ Z.of_nat fuel -> z < 16 ^ Z.of_nat (hex_width fuel z).
Proof.
  induction fuel as [|fuel IH]; intros z Hz; [exact (proj2 Hz) |].
  simpl hex_width. destruct (Z.ltb_spec z 16) as [|Hbig]; [simpl; lia |].
  rewrite Nat2Z.inj_succ, Z.pow_succ_r in * by lia.
  assert (Hq : z / 16 < 16 ^ Z.of_nat (hex_width fuel (z / 16))).
  { apply IH. split; [apply Z.div_pos; lia |]. apply Z.div_lt_upper_bound; lia. }
  pose proof (Z.mul_div_le z 16 ltac:(lia)).
  pose proof (Z.mod_pos_bound z 16 ltac:(lia)).
  pose proof (Z.div_mod z 16 ltac:(lia)). lia.
Qed.

Lemma toString16_fuel (z : Z) :
  0 <= z -> z < 16 ^ Z.of_nat (Z.to_nat (Z.log2_up (z + 2))).
Proof.
  intros Hz. rewrite Z2Nat.id by apply Z.log2_up_nonneg.
  pose proof (Z.log2_up_spec (z + 2) ltac:(lia)) as [_ Hup].
  assert (Hpos : 0 <= Z.log2_up (z + 2)) by apply Z.log2_up_nonneg.
  assert (2 ^ Z.log2_up (z + 2) <= 16 ^ Z.log2_up (z + 2)).
  { apply Z.pow_le_mono_l. lia. }
  lia.
Qed.

(** [n.toString(16)] for an integer of [0, 2^32): between one and eight
    lower-case digits whose value is the integer. *)
Lemma toString16_uint32 (z : Z) :
  0 <= z < 2 ^ 32 ->
  (1 <= length (toString16 z) <= 8)%nat /\
  Forall lower_hex (toString16 z) /\
  hex_fold 0 (toString16 z) = z.
Proof.
  intros Hz. unfold toString16. rewrite hex_digits_length.
  split; [| split].
  - split.
    + assert (Hf : (1 <= Z.to_nat (Z.log2_up (z + 2)))%nat).
      { assert (0 < Z.log2_up (z + 2)) by (apply Z.log2_up_pos; lia). lia. }
      destruct (Z.to_nat (Z.log2_up (z + 2))) as [|fuel]; [lia |].
      simpl. destruct (z <? 16); lia.
    + apply hex_width_le; [lia |]. change (16 ^ Z.of_nat 8) with (2 ^ 32). exact Hz.
  - apply hex_digits_lower.
  - rewrite hex_fold_digits. simpl Z.mul.
    apply Z.mod_small. split; [lia |].
    apply hex_width_enough. split; [lia |]. apply toString16_fuel. lia.
Qed.

Lemma hex_fold_zeros (k : nat) (s : jsstring) :
  hex_fold 0 (repeat 48%N k ++ s) = hex_fold 0 s.
Proof.
  induction k as [|k IH]; [reflexivity |].
  unfold hex_fold in *. cbn [repeat app fold_left]. exact IH.
Qed.

(** What [hex32] returns is the digits of [toString16] behind zeros, up
    to a length of 8. *)
Lemma hex32_padding (num : number) (s : jsstring) :
  util.hex32 num = Ok s ->
  exists k, s = repeat 48%N k ++ toString16 (ToUint32 num) /\
            (k + length (toString16 (ToUint32 num)) = 8)%nat.
Proof.
  unfold util.hex32.
  destruct (strict_eq (ushr0 num) num); [| discriminate]. simpl.
  set (t := toString16 (ToUint32 num)). intros H.
  destruct (length t) as [|[|[|[|[|[|[|[|[|n]]]]]]]]] eqn:E;
    try discriminate H; injection H as <-;
    [exists 7%nat | exists 6%nat | exists 5%nat | exists 4%nat
    | exists 3%nat | exists 2%nat | exists 1%nat | exists 0%nat];
    split; reflexivity.
Qed.

End HexFacts.

Section HexRoundTrip.

Lemma hex_prefix_lower (s : jsstring) :
  Forall lower_hex s ->
  forall seen acc,
    hex_prefix s seen acc
    = if seen || negb (Nat.eqb (length s) 0) then Some (hex_fold acc s) else None.
Proof.
  induction 1 as [|c s Hc Hs IH]; intros seen acc; simpl.
  - rewrite orb_false_r. reflexivity.
  - destruct (lower_hex_value c Hc) as [d Hd].
    unfold hex_fold. cbn [fold_left]. rewrite Hd, IH, orb_true_r. reflexivity.
Qed.

Lemma lower_hex_cases (c : N) :
  lower_hex c ->
  (c = 48 \/ c = 49 \/ c = 50 \/ c = 51 \/ c = 52 \/ c = 53 \/ c = 54 \/ c = 55
   \/ c = 56 \/ c = 57 \/ c = 97 \/ c = 98 \/ c = 99 \/ c = 100 \/ c = 101
   \/ c = 102)%N.
Proof. unfold lower_hex. lia. Qed.

(** On a non-empty string of lower-case digits [parseInt(s, 16)] skips
    nothing and reads every digit. *)
Lemma parseInt16_lower (s : jsstring) :
  Forall lower_hex s -> s <> [] -> parseInt16 s = of_Z (hex_value s).
Proof.
  intros Hs Hne.
  assert (Hplain : parseInt16 s
                   = match hex_prefix s false 0 with
                     | Some m => of_Z m
                     | None => NaN
                     end).
  { destruct s as [|c1 s1]; [contradiction |].
    inversion Hs as [|? ? Hc1 Hs1]; subst.
    apply lower_hex_cases in Hc1.
    repeat (destruct Hc1 as [Hc1|Hc1]); subst c1; try reflexivity.
    destruct s1 as [|c2 s2]; [reflexivity |].
    inversion Hs1 as [|? ? Hc2 Hs2]; subst.
    apply lower_hex_cases in Hc2.
    repeat (destruct Hc2 as [Hc2|Hc2]); subst c2; reflexivity. }
  rewrite Hplain, (hex_prefix_lower s Hs). simpl.
  destruct s; [contradiction | reflexivity].
Qed.


Lemma hex32_shape (num : number) (s : jsstring) :
  util.hex32 num = Ok s ->
  length s = 8%nat /\ Forall lower_hex s /\ hex_value s = ToUint32 num.
Proof.
  intros H. destruct (hex32_padding num s H) as (k & -> & Hk).
  destruct (toString16_uint32 (ToUint32 num) (ToUint32_range num)) as (_ & Hl & Hv).
  split; [| split].
  - rewrite length_app, repeat_length. exact Hk.
  - apply Forall_app. split; [| exact Hl].
    apply List.Forall_forall. intros c Hc. apply repeat_spec in Hc. subst c.
    left. lia.
  - unfold hex_value. rewrite hex_fold_zeros. exact Hv.
Qed.

Lemma hex32_returns (num : number) :
  strict_eq (ushr0 num) num = true -> exists s, util.hex32 num = Ok s.
Proof.
  intros H. unfold util.hex32. rewrite H. simpl.
  destruct (toString16_uint32 (ToUint32 num) (ToUint32_range num)) as ([H1 H8] & _).
  destruct (length (toString16 (ToUint32 num))) as [|[|[|[|[|[|[|[|[|n]]]]]]]]];
    try lia; eauto.
Qed.

End HexRoundTrip.

(** X1: for every integer [n] of [0, 2^32), [hex32(n)] returns eight
    lower-case hexadecimal digits whose value is [n], and
    [parseInt(., 16)] reads [n] back from them. *)
Theorem hex32_uint32_round_trip (n : Z) :
  0 <= n < 2 ^ 32 ->
  exists s,
    util.hex32 (of_Z n) = Ok s /\
    length s = 8%nat /\
    Forall lower_hex s /\
    hex_value s = n /\
    parseInt16 s = of_Z n.
Proof.
  intros Hn.
  destruct (hex32_returns (of_Z n) (uint32_check n Hn)) as [s Hs].
  destruct (hex32_shape (of_Z n) s Hs) as (Hl & Hf & Hv).
  rewrite (ToUint32_of_Z n Hn) in Hv.
  exists s. repeat split; try assumption.
  rewrite parseInt16_lower, Hv; [reflexivity | exact Hf |].
  intros ->. discriminate Hl.
Qed.

Lemma hex32_uint32_round_trip_witness :
  exists s,
    util.hex32 (of_Z 1561000000) = Ok s /\
    length s = 8%nat /\
    Forall lower_hex s /\
    hex_value s = 1561000000 /\
    parseInt16 s = of_Z 1561000000.
Proof. apply (hex32_uint32_round_trip 1561000000). split; [lia | reflexivity]. Defined.

(** X2: whatever the number, [hex32] either returns eight lower-case
    hexadecimal digits, whose value is the number as a uint32, or fails
    its assertion because the number is not its own [>>> 0]; the
    [default] branch of its switch, which throws a bare [Error], is
    never taken. *)
Theorem hex32_outcomes (num : number) :
  (exists s,
      util.hex32 num = Ok s /\
      length s = 8%nat /\ Forall lower_hex s /\ hex_value s = ToUint32 num /\
      strict_eq (ushr0 num) num = true)
  \/
  (util.hex32 num = Throw (AssertionError default_message) /\
   strict_eq (ushr0 num) num = false).
Proof.
  destruct (strict_eq (ushr0 num) num) eqn:E.
  - left. destruct (hex32_returns num E) as [s Hs].
    destruct (hex32_shape num s Hs) as (Hl & Hf & Hv).
    exists s. repeat split; assumption.
  - right. split; [| reflexivity]. unfold util.hex32. rewrite E. reflexivity.
Qed.

(* ===================================================================== *)
(** ** Job serialisation, job flags, users *)
(* ===================================================================== *)



Section JobFlags.

Context {Share CommitResult : Type}.
Variable attempt_refresh : Job.Attempt -> Job.Attempt.
Variable attempt_getDifficulty : Job.Attempt -> number.
Variable attempt_commit : Job.Attempt -> Share -> result CommitResult.



End JobFlags.



(** X5: [addUser] answers true exactly when the name was not registered
    on the connection, after it [hasUser] holds of the name, a second
    [addUser] of it answers false and changes nothing, and the answer of
    [hasUser] for any other name is what it was. *)
Theorem addUser_registers_once (username other : jsstring) (c : Connection.t) :
  other <> username ->
  let r := Connection.addUser username c in
  r.1 = negb (Connection.hasUser username c) /\
  Connection.hasUser username r.2 = true /\
  Connection.addUser username r.2 = (false, r.2) /\
  Connection.hasUser other r.2 = Connection.hasUser other c.
Proof.
  intros Hne r. subst r. unfold Connection.addUser, Connection.hasUser.
  destruct (decide (username ∈ Connection.users c)) as [Hin|Hout]; simpl.
  - rewrite (bool_decide_eq_true_2 _ Hin).
    destruct (decide (username ∈ Connection.users c)); [| contradiction].
    repeat split.
  - rewrite (bool_decide_eq_false_2 _ Hout).
    assert (Hnew : username ∈ Connection.users c ∪ {[username]}).
    { apply elem_of_union. right. apply elem_of_singleton. reflexivity. }
    rewrite (bool_decide_eq_true_2 _ Hnew).
    destruct (decide (username ∈ Connection.users c ∪ {[username]})); [| contradiction].
    repeat split. apply bool_decide_ext. rewrite elem_of_union, elem_of_singleton.
    tauto.
Qed.

Lemma addUser_registers_once_witness :
  (Connection.addUser (lit "alice") sample_connection).1
  = negb (Connection.hasUser (lit "alice") sample_connection).
Proof.
  apply (addUser_registers_once (lit "alice") (lit "bob") sample_connection).
  discriminate.
Defined.

(* ===================================================================== *)
(** ** Requests: [ClientPacket.fromRaw] and the messages of [fromPacket] *)
(* ===================================================================== *)

(** X6: a packet that [fromRaw] returns comes from a line that parses,
    to a value whose [method] is a string of at most 50 code units, the
    method of the packet; its id is the [id] of the value when that is a
    string or a number and [null] when it is absent or null; its params
    are the [params] of the value when that is an array and empty when
    it is absent or falsy. *)
Theorem fromRaw_packet_wellformed
    (JSON_parse : jsstring -> option value) (json : jsstring) (p : ClientPacket.t) :
  ClientPacket.fromRaw JSON_parse json = Ok p ->
  exists msg idv pv,
    JSON_parse json = Some msg /\
    get_prop msg (lit "method") = Ok (VStr (ClientPacket.method p)) /\
    strlen (ClientPacket.method p) <= 50 /\
    get_prop msg (lit "id") = Ok idv /\
    ((idv = VUndefined \/ idv = VNull) /\ ClientPacket.id p = VNull
     \/ (typeof idv = TString \/ typeof idv = TNumber) /\ ClientPacket.id p = idv) /\
    get_prop msg (lit "params") = Ok pv /\
    (truthy pv = false /\ ClientPacket.params p = []
     \/ pv = VArr (ClientPacket.params p)).
Proof.
  unfold ClientPacket.fromRaw.
  destruct (JSON_parse json) as [msg|]; [| discriminate]. simpl.
  destruct (get_prop msg (lit "id")) as [idv|] eqn:Eid; [| discriminate]. simpl.
  destruct (get_prop msg (lit "method")) as [mv|] eqn:Em.
  2: { destruct idv; simpl; discriminate. }
  destruct (get_prop msg (lit "params")) as [pv|] eqn:Ep.
  2: { destruct idv; simpl; try discriminate;
       destruct mv; simpl; try discriminate;
       destruct (strlen _ <=? 50); simpl; discriminate. }
  intros H. exists msg, idv, pv.
  destruct idv; cbn [bind assert typeof] in H; try discriminate H;
    (destruct mv as [ | | | |m| | ]; cbn [bind] in H; try discriminate H;
     destruct (strlen m <=? 50) eqn:Hlen; cbn [bind assert] in H;
     try discriminate H; apply Z.leb_le in Hlen;
     (destruct (truthy pv) eqn:Et; [destruct pv; try discriminate H |]);
     injection H as <-; cbn [ClientPacket.id ClientPacket.method ClientPacket.params
                             ClientPacket.new];
     (split; [reflexivity |]); (split; [assumption |]);
     (split; [exact Hlen |]); (split; [assumption |]); (split; [auto 6 |]);
     (split; [assumption | auto])).
Qed.

Lemma fromRaw_packet_wellformed_witness :
  exists msg,
    sample_parse subscribe_line = Some msg /\
    get_prop msg (lit "method") = Ok (VStr (lit "mining.subscribe")).
Proof.
  destruct (fromRaw_packet_wellformed sample_parse subscribe_line subscribe_packet)
    as (msg & idv & pv & Hm & Hmeth & _); [reflexivity |].
  exists msg. split; [exact Hm | exact Hmeth].
Defined.

Lemma fromRaw_cases (JSON_parse : jsstring -> option value) (json : jsstring) :
  match JSON_parse json with
  | None => ClientPacket.fromRaw JSON_parse json = Throw SyntaxError
  | Some VNull | Some VUndefined =>
      ClientPacket.fromRaw JSON_parse json = Throw TypeError
  | Some _ =>
      (exists p, ClientPacket.fromRaw JSON_parse json = Ok p)
      \/ ClientPacket.fromRaw JSON_parse json = Throw (AssertionError default_message)
  end.
Proof.
  unfold ClientPacket.fromRaw.
  destruct (JSON_parse json) as [msg|]; [| reflexivity].
  destruct msg as [ | |bv|n|s|items|fields]; try reflexivity;
    try (right; reflexivity).
  cbn [bind get_prop].
  destruct (assoc (lit "id") fields) as [ | |bv|n|s|items|fs];
    cbn [bind assert typeof]; try (right; reflexivity);
    (destruct (assoc (lit "method") fields) as [ | | | |m| | ];
     cbn [bind]; try (right; reflexivity);
     destruct (strlen m <=? 50); cbn [bind assert]; try (right; reflexivity);
     destruct (truthy (assoc (lit "params") fields));
     [destruct (assoc (lit "params") fields); eauto | eauto]).
Qed.

(** X7: [fromRaw] throws a [SyntaxError] exactly when the line does not
    parse and a [TypeError] exactly when it parses to [null]; every
    other failure is an assertion error with the default message, and
    the bare [Error] is never thrown. *)
Theorem fromRaw_errors
    (JSON_parse : jsstring -> option value) (json : jsstring) :
  (ClientPacket.fromRaw JSON_parse json = Throw SyntaxError <-> JSON_parse json = None) /\
  (ClientPacket.fromRaw JSON_parse json = Throw TypeError
   <-> JSON_parse json = Some VNull \/ JSON_parse json = Some VUndefined) /\
  ClientPacket.fromRaw JSON_parse json <> Throw Error /\
  (forall m, ClientPacket.fromRaw JSON_parse json = Throw (AssertionError m) ->
             m = default_message).
Proof.
  pose proof (fromRaw_cases JSON_parse json) as H.
  destruct (JSON_parse json) as [msg|].
  - destruct msg;
      try (rewrite H; repeat split; try discriminate; auto;
           intros m Hm; discriminate Hm);
      (destruct H as [[p ->]| ->];
       repeat split; try discriminate;
       try (intros [Hx|Hx]; discriminate Hx);
       try (intros m Hm; discriminate Hm);
       try (intros m [= <-]; reflexivity)).
  - rewrite H. repeat split; try discriminate; auto;
      try (intros [Hx|Hx]; discriminate Hx); try (intros m Hm; discriminate Hm).
Qed.

(** X8: [Submission.fromPacket] throws one of four messages, and which
    one is decided by the first three checks alone: with fewer than five
    params "Invalid parameters.", else with a bad username "Name must be
    a string.", else with a bad job id "Job ID must be a string.", and
    in every other case "Nonce2 must be a string.".  The messages about
    the time and the nonce are never thrown. *)
Theorem fromPacket_message (msg : ClientPacket.t) :
  let params := ClientPacket.params msg in
  Submission.fromPacket msg
  = Throw (AssertionError
             (if arrlen params <? 5 then lit "Invalid parameters."
              else if negb (util.isUsername (index params 0))
                   then lit "Name must be a string."
              else if negb (util.isJob (index params 1))
                   then lit "Job ID must be a string."
              else lit "Nonce2 must be a string.")).
Proof.
  intros params. unfold Submission.fromPacket. fold params.
  rewrite !isHex_false.
  destruct (Z.geb_spec (arrlen params) 5), (Z.ltb_spec (arrlen params) 5);
    try lia; simpl; [| reflexivity].
  destruct (util.isUsername (index params 0)); simpl; [| reflexivity].
  destruct (util.isJob (index params 1)); simpl; [| reflexivity].
  destruct (Submission.is_string (index params 2)); simpl; [| reflexivity].
  destruct (strlen _ =? _); reflexivity.
Qed.

(** X9: in the redirect response the header block ends with
    [Content-Length: 38] and a blank line, and what follows, a line
    break and the JSON body of 36 bytes, is 38 bytes long, whatever the
    public host and port. *)
Theorem redirect_content_length (publicHost : jsstring) (publicPort : N) :
  exists head,
    Connection.redirect_response publicHost publicPort
    = head ++ lit "Content-Length: 38" ++ Connection.crlf ++ Connection.crlf
      ++ (Connection.crlf ++ redirect_body) /\
    Connection.utf8_length (Connection.crlf ++ redirect_body) = 38 /\
    Connection.utf8_length redirect_body = 36.
Proof.
  exists (lit "HTTP/1.1 200 OK" ++ Connection.crlf
          ++ lit "X-Stratum: stratum+tcp://" ++ publicHost ++ lit ":"
          ++ Connection.decimal publicPort ++ Connection.crlf
          ++ lit "Connection: Close" ++ Connection.crlf
          ++ lit "Content-Type: application/json; charset=utf-8" ++ Connection.crlf).
  split; [| split; reflexivity].
  unfold Connection.redirect_response, redirect_body. simpl join.
  rewrite <- !app_assoc. reflexivity.
Qed.

(* ===================================================================== *)
(** ** Vardiff over many submissions *)
(* ===================================================================== *)

Section RetargetRuns.

Variable pm : Z.

(** The three ways out of [retarget]. *)
Lemma retarget_outcomes (max : number) (now : Z) (c : Connection.t) :
  let counted := Connection.set_submissions (Connection.submissions c + 1) c in
  Connection.retarget pm max now c = (Throw (AssertionError default_message), c)
  /\ (gt (Connection.difficulty c) (of_Z 0) = false \/ Connection.lastRetarget c = -1)
  \/ Connection.retarget pm max now c = (Ok false, counted)
     /\ gt (Connection.difficulty c) (of_Z 0) = true /\ Connection.lastRetarget c <> -1
  \/ exists x : Z,
      Connection.retarget pm max now c
      = (Ok true,
         Connection.setDifficulty
           (Math_max (of_Z 1) (Math_min (Connection.capDifficulty max) (of_Z x)))
           counted)
      /\ gt (Connection.difficulty c) (of_Z 0) = true /\ Connection.lastRetarget c <> -1.
Proof.
  intros counted. unfold Connection.retarget.
  destruct (gt (Connection.difficulty c) (of_Z 0)) eqn:Ed; simpl negb; cbv iota;
    [| left; auto].
  destruct (Z.eqb_spec (Connection.lastRetarget c) (-1)) as [El|El]; [left; auto |].
  fold counted. right.
  destruct (Connection.multiple_of _ pm); [| left; auto].
  destruct (Z.abs _ <=? 5000); [left; auto |].
  right. eexists. split; [reflexivity | auto].
Qed.

(** Away from a decision point, or at one within the band of the raw
    elapsed time, the call only counts. *)
Lemma retarget_counts (max : number) (now : Z) (c : Connection.t) :
  0 < pm ->
  gt (Connection.difficulty c) (of_Z 0) = true ->
  Connection.lastRetarget c <> -1 ->
  0 <= Connection.submissions c ->
  (let n := Connection.submissions c + 1 in
   Z.rem n pm = 0 ->
   Z.abs (n / pm * 60000 - (now - Connection.lastRetarget c)) <= 5000) ->
  Connection.retarget pm max now c
  = (Ok false, Connection.set_submissions (Connection.submissions c + 1) c).
Proof.
  intros Hpm Hd Hl Hs Hband. unfold Connection.retarget. rewrite Hd. simpl negb. cbv iota.
  destruct (Z.eqb_spec (Connection.lastRetarget c) (-1)) as [|_]; [contradiction |].
  cbn [Connection.submissions Connection.set_submissions Connection.lastRetarget].
  destruct (Connection.multiple_of (Connection.submissions c + 1) pm) eqn:Em;
    [| reflexivity].
  assert (Hrem : Z.rem (Connection.submissions c + 1) pm = 0).
  { unfold Connection.multiple_of in Em. apply andb_true_iff in Em as [_ Em].
    apply Z.eqb_eq, Em. }
  assert (Hn : 0 < Connection.submissions c + 1) by lia.
  destruct (decision_point_target pm _ Hpm Hn Hrem) as (_ & Hq & _).
  rewrite Hq. specialize (Hband Hrem).
  destruct (Z.leb_spec (Z.abs ((Connection.submissions c + 1) / pm * 60000
                               - (now - Connection.lastRetarget c))) 5000);
    [reflexivity | lia].
Qed.

End RetargetRuns.


(** X11: a miner on pace is never retargeted.  Over any run of
    submissions on a connection with a positive difficulty and a set
    clock, if at each decision point (a count that is a multiple of the
    shares-per-minute target [pm]) the time elapsed since the last
    retarget is within 5000 ms of [count / pm] minutes, then every
    [retarget] returns false, nothing is staged, the difficulty stays,
    and the count has grown by the number of submissions. *)
Theorem on_pace_never_retargeted
    (pm : Z) (max : number) (times : list Z) (c : Connection.t) :
  0 < pm ->
  gt (Connection.difficulty c) (of_Z 0) = true ->
  Connection.lastRetarget c <> -1 ->
  0 <= Connection.submissions c ->
  (forall (k : nat) (now : Z),
      times !! k = Some now ->
      let n := Connection.submissions c + 1 + Z.of_nat k in
      Z.rem n pm = 0 ->
      Z.abs (n / pm * 60000 - (now - Connection.lastRetarget c)) <= 5000) ->
  let r := retarget_all pm max times c in
  r.1 = repeat (Ok false) (length times) /\
  Connection.nextDifficulty r.2 = Connection.nextDifficulty c /\
  Connection.difficulty r.2 = Connection.difficulty c /\
  Connection.lastRetarget r.2 = Connection.lastRetarget c /\
  Connection.submissions r.2 = Connection.submissions c + Z.of_nat (length times).
Proof.
  intros Hpm. revert c.
  induction times as [|now times IH]; intros c Hd Hl Hs Hpace r; subst r.
  - simpl. repeat split. lia.
  - cbn [retarget_all].
    rewrite (retarget_counts pm max now c Hpm Hd Hl Hs).
    2: { intros n Hrem. specialize (Hpace 0%nat now eq_refl).
         simpl in Hpace. rewrite Z.add_0_r in Hpace. apply Hpace, Hrem. }
    cbn [fst snd].
    set (c1 := Connection.set_submissions (Connection.submissions c + 1) c).
    destruct (IH c1) as (Hr & Hn & Hdf & Hlr & Hsub); try assumption.
    + simpl. lia.
    + intros k t Hk n Hrem. subst n.
      cbn [c1 Connection.submissions Connection.set_submissions
           Connection.lastRetarget] in *.
      specialize (Hpace (S k) t Hk). cbn zeta in Hpace.
      replace (Connection.submissions c + 1 + Z.of_nat (S k))
        with (Connection.submissions c + 1 + 1 + Z.of_nat k) in Hpace by lia.
      apply Hpace, Hrem.
    + rewrite Hr, Hn, Hdf, Hlr, Hsub. simpl length.
      cbn [c1 Connection.submissions Connection.set_submissions
           Connection.nextDifficulty Connection.difficulty Connection.lastRetarget].
      repeat split. lia.
Qed.

Lemma on_pace_never_retargeted_witness :
  (retarget_all 20 (of_Z 1000) sample_pace
     (Connection.set_submissions 0 sample_connection)).1
  = repeat (Ok false) (length sample_pace).
Proof.
  apply (on_pace_never_retargeted 20 (of_Z 1000) sample_pace
           (Connection.set_submissions 0 sample_connection));
    try reflexivity; try lia; try discriminate.
  intros k now Hk n Hrem. subst n.
  cbn [Connection.submissions Connection.set_submissions Connection.lastRetarget
       sample_connection Connection.set_lastRetarget Connection.set_difficulty
       Connection.new] in *.
  unfold sample_pace in Hk.
  rewrite list_lookup_fmap in Hk.
  destruct (seq 0 240 !! k) as [i|] eqn:Ei; [| discriminate Hk].
  apply lookup_seq in Ei as [-> _]. injection Hk as <-.
  pose proof (Z.quot_rem' (0 + 1 + Z.of_nat k) 20) as Hq. rewrite Hrem in Hq.
  rewrite <- (Z.quot_div_nonneg (0 + 1 + Z.of_nat k) 20) by lia.
  lia.
Defined.

(* ===================================================================== *)
(** ** A connection over any sequence of calls *)
(* ===================================================================== *)

Import Lifecycle.

Section BufferFacts.

Lemma utf8_length_nonneg_cons (s : jsstring) :
  0 <= Connection.utf8_length s /\ forall c, 0 <= Connection.utf8_length (c :: s).
Proof.
  induction s as [|d s [IH1 IH2]].
  - split; [simpl; lia |]. intros c. simpl.
    destruct (c <? 128)%N; [lia |]. destruct (c <? 2048)%N; [lia |].
    destruct (_ && _); lia.
  - split; [apply IH2 |]. intros c.
    specialize (IH2 d). cbn [Connection.utf8_length].
    cbn [Connection.utf8_length] in IH2.
    destruct (c <? 128)%N; [lia |]. destruct (c <? 2048)%N; [lia |].
    destruct ((55296 <=? c) && (c <=? 56319))%N; [| lia].
    destruct ((56320 <=? d) && (d <=? 57343))%N; lia.
Qed.

Lemma utf8_length_nonneg (s : jsstring) : 0 <= Connection.utf8_length s.
Proof. apply utf8_length_nonneg_cons. Qed.

Lemma strip_cr_shorter (s : jsstring) :
  (length (Design.strip_cr s) <= length s)%nat /\
  Forall (fun u => u <> 13%N) (Design.strip_cr s).
Proof.
  unfold Design.strip_cr. induction s as [|c s [IHl IHf]]; simpl.
  - split; [lia | constructor].
  - destruct (N.eqb_spec c 13); simpl; [split; [lia | exact IHf] |].
    split; [lia | constructor; assumption].
Qed.

Lemma no_newline_Forall (s : jsstring) :
  Design.has_newline s = false -> Forall (fun u => u <> 10%N) s.
Proof.
  unfold Design.has_newline. induction s as [|c s IH]; simpl; [constructor |].
  destruct (N.eqb_spec c 10); simpl; [discriminate |].
  intros H. constructor; auto.
Qed.

Lemma partial_line_shorter (s : jsstring) :
  (length (Design.partial_line s) <= length s)%nat /\
  Forall (fun u => u <> 10%N) (Design.partial_line s) /\
  (forall P : N -> Prop, Forall P s -> Forall P (Design.partial_line s)).
Proof.
  induction s as [|c s (IHl & IHn & IHp)]; cbn [Design.partial_line].
  - split; [simpl; lia |]. split; [constructor | auto].
  - destruct (N.eqb_spec c 10) as [->|Hc].
    + split; [simpl; lia |]. split; [exact IHn |].
      intros P HP. inversion HP; subst. apply IHp. assumption.
    + destruct (Design.has_newline s) eqn:E.
      * split; [simpl; lia |]. split; [exact IHn |].
        intros P HP. inversion HP; subst. apply IHp. assumption.
      * split; [simpl; lia |]. split; [| auto].
        constructor; [exact Hc | apply no_newline_Forall, E].
Qed.

(** The partial line kept from a buffer below the cap. *)
Lemma partial_line_bounds (buf : jsstring) :
  strlen buf < 100000 ->
  strlen (Design.partial_line (Design.strip_cr buf)) < 100000 /\
  Forall (fun u => ~ terminator u) (Design.partial_line (Design.strip_cr buf)).
Proof.
  intros Hlen.
  destruct (strip_cr_shorter buf) as [Hs Hcr].
  destruct (partial_line_shorter (Design.strip_cr buf)) as (Hp & Hnl & Hsub).
  split; [unfold strlen in *; lia |].
  specialize (Hsub _ Hcr).
  apply List.Forall_forall. intros u Hu [-> | ->].
  - rewrite List.Forall_forall in Hnl. exact (Hnl _ Hu eq_refl).
  - rewrite List.Forall_forall in Hsub. exact (Hsub _ Hu eq_refl).
Qed.

End BufferFacts.

Section StepFacts.

Lemma quiet_before_close (evs : list Connection.effect) :
  Forall quiet evs -> Forall before_close evs.
Proof.
  intros H. eapply Forall_impl; [exact H |]. intros [ | | | | | ]; simpl; auto.
Qed.

Lemma line_event_quiet (evs : list Connection.effect) :
  Forall line_event evs -> Forall quiet evs.
Proof.
  intros H. eapply Forall_impl; [exact H |].
  intros [ | | | |[]|]; simpl; auto.
Qed.

Lemma bounds_same (c c' : Connection.t) :
  Connection.destroyed c' = Connection.destroyed c ->
  Connection.drainSize c' = Connection.drainSize c ->
  Connection.recv c' = Connection.recv c ->
  within_bounds c -> within_bounds c'.
Proof. unfold within_bounds. intros -> -> ->. auto. Qed.

Lemma bounds_closed (c c' : Connection.t) :
  Connection.destroyed c' = true -> within_bounds c -> within_bounds c'.
Proof. unfold within_bounds. intros -> _ H. discriminate H. Qed.

Lemma steps_same (c c' : Connection.t) :
  Connection.destroyed c' = Connection.destroyed c ->
  Connection.trace c' = Connection.trace c ->
  Connection.drainSize c' = Connection.drainSize c ->
  Connection.recv c' = Connection.recv c ->
  steps_to c c'.
Proof.
  intros Hd Ht Hs Hr. split; [| split].
  - intros H. rewrite Hd, Ht. split; [exact H |]. exists []. rewrite app_nil_r. auto.
  - intros H. exists []. split; [constructor |]. left. rewrite Hd, Ht, app_nil_r. auto.
  - apply bounds_same; assumption.
Qed.

Lemma steps_refl (c : Connection.t) : steps_to c c.
Proof. apply steps_same; reflexivity. Qed.

Lemma steps_trans (c1 c2 c3 : Connection.t) :
  steps_to c1 c2 -> steps_to c2 c3 -> steps_to c1 c3.
Proof.
  intros (Hd12 & Hl12 & Hb12) (Hd23 & Hl23 & Hb23). split; [| split].
  - intros H. destruct (Hd12 H) as (H2 & evs & Ht & Hq).
    destruct (Hd23 H2) as (H3 & evs' & Ht' & Hq').
    split; [exact H3 |]. exists (evs ++ evs').
    rewrite Ht', Ht, <- app_assoc. split; [reflexivity |].
    apply Forall_app. auto.
  - intros H. destruct (Hl12 H) as (evs & Hbc & [[H2 Ht]|(post & H2 & Ht & Hq)]).
    + destruct (Hl23 H2) as (evs' & Hbc' & [[H3 Ht']|(post & H3 & Ht' & Hq)]).
      * exists (evs ++ evs'). split; [apply Forall_app; auto |].
        left. rewrite Ht', Ht, <- app_assoc. auto.
      * exists (evs ++ evs'). split; [apply Forall_app; auto |].
        right. exists post. rewrite Ht', Ht, <- !app_assoc. auto.
    + destruct (Hd23 H2) as (H3 & evs' & Ht' & Hq').
      exists evs. split; [exact Hbc |]. right. exists (post ++ evs').
      rewrite Ht', Ht, <- !app_assoc. repeat split; [exact H3 |].
      apply Forall_app. auto.
  - auto.
Qed.

Lemma steps_emit (e : Connection.effect) (c : Connection.t) :
  quiet e -> steps_to c (Connection.emit e c).
Proof.
  intros He. split; [| split].
  - intros H. split; [exact H |]. exists [e]. split; [reflexivity | auto].
  - intros H. exists [e]. split; [apply quiet_before_close; auto |]. left. auto.
  - apply bounds_same; reflexivity.
Qed.

Lemma steps_destroy (c : Connection.t) : steps_to c (Connection.destroy c).
Proof.
  destruct (Connection.destroyed c) eqn:E.
  - unfold Connection.destroy. rewrite E. apply steps_refl.
  - destruct (destroy_live c E) as [Ht Hd]. split; [| split].
    + congruence.
    + intros _. exists []. split; [constructor |]. right. exists [].
      rewrite Ht, app_nil_r. auto.
    + apply bounds_closed, Hd.
Qed.

Variable socket_write : list Connection.effect -> jsstring -> bool.

Lemma write_drain (text : jsstring) (c : Connection.t) :
  Connection.destroyed c = false ->
  let c' := Connection.write socket_write text c in
  Connection.destroyed c' = false ->
  within_bounds c -> 0 <= Connection.drainSize c' <= DRAIN_LIMIT.
Proof.
  intros Hlive c' Hlive' Hb. destruct (Hb Hlive) as ([H0 Hmax] & _).
  subst c'. unfold Connection.write in *. rewrite Hlive in *.
  destruct (socket_write (Connection.trace c) text); [simpl; auto |].
  cbn [Connection.drainSize Connection.set_drainSize Connection.emit] in *.
  pose proof (utf8_length_nonneg text).
  destruct (Z.gtb_spec (Connection.drainSize c + Connection.utf8_length text)
              (Z.shiftl 5 20)) as [Hgt|Hle].
  - unfold Connection.destroy in Hlive'. simpl in Hlive'. rewrite Hlive in Hlive'.
    discriminate Hlive'.
  - simpl. unfold DRAIN_LIMIT. lia.
Qed.

Lemma steps_write (text : jsstring) (c : Connection.t) :
  steps_to c (Connection.write socket_write text c).
Proof.
  destruct (Connection.destroyed c) eqn:E.
  - unfold Connection.write. rewrite E. apply steps_refl.
  - split; [| split].
    + congruence.
    + intros _. exists [Connection.SocketWrite text].
      split; [constructor; [exact I | constructor] |].
      destruct (write_live socket_write text c E) as [[Ht Hd]|(Ht & Hd & _)].
      * left. auto.
      * right. exists []. rewrite Ht, app_nil_r. auto.
    + intros Hb Hlive'.
      pose proof (write_drain text c E Hlive' Hb) as Hdrain.
      pose proof (write_fields socket_write text c) as (_ & _ & _ & _ & Hr).
      destruct (Hb E) as (_ & Hlen & Hterm). rewrite Hr. auto.
Qed.

End StepFacts.

Section CallFacts.

Variable JSON_parse : jsstring -> option value.
Variable JSON_stringify : value -> jsstring.
Variable socket_write : list Connection.effect -> jsstring -> bool.
Variable publicHost : jsstring.
Variable publicPort : N.
Variable hashLeaf : Buffer -> Buffer.
Variable pm : Z.

Lemma destroy_closed (c : Connection.t) :
  Connection.destroyed (Connection.destroy c) = true.
Proof. unfold Connection.destroy. destruct (Connection.destroyed c) eqn:E; [exact E | reflexivity]. Qed.

Lemma destroy_noop (c : Connection.t) :
  Connection.destroyed c = true -> Connection.destroy c = c.
Proof. intros E. unfold Connection.destroy. rewrite E. reflexivity. Qed.

Lemma write_noop (text : jsstring) (c : Connection.t) :
  Connection.destroyed c = true -> Connection.write socket_write text c = c.
Proof. intros E. unfold Connection.write. rewrite E. reflexivity. Qed.

Lemma error_too_much_data_noop (c : Connection.t) :
  Connection.destroyed c = true -> Connection.error_too_much_data c = c.
Proof. intros E. unfold Connection.error_too_much_data. rewrite E. reflexivity. Qed.

Lemma same_difficulty_refl (c : Connection.t) : same_difficulty c c.
Proof. repeat split. Qed.

Lemma same_difficulty_trans (c1 c2 c3 : Connection.t) :
  same_difficulty c1 c2 -> same_difficulty c2 c3 -> same_difficulty c1 c3.
Proof. intros (A & B & C) (D & E & F). repeat split; congruence. Qed.

Lemma same_difficulty_destroy (c : Connection.t) :
  same_difficulty c (Connection.destroy c).
Proof. destruct (destroy_fields c) as (_ & Hl & Hd & Hn & _). repeat split; assumption. Qed.

Lemma same_difficulty_write (text : jsstring) (c : Connection.t) :
  same_difficulty c (Connection.write socket_write text c).
Proof.
  destruct (write_fields socket_write text c) as (_ & Hl & Hd & Hn & _).
  repeat split; assumption.
Qed.

Lemma same_difficulty_send (json : value) (c : Connection.t) :
  same_difficulty c (Connection.send JSON_stringify socket_write json c).
Proof.
  unfold Connection.send. destruct (Connection.destroyed c);
    [apply same_difficulty_refl | apply same_difficulty_write].
Qed.

Lemma handle_lines_frame (lines : list jsstring) :
  forall c : Connection.t,
    let c' := fold_left (fun c line => Connection.handle_line JSON_parse line c) lines c in
    Connection.drainSize c' = Connection.drainSize c /\ same_difficulty c c'.
Proof.
  unfold same_difficulty.
  induction lines as [|line lines IH]; intros c; simpl.
  - repeat split.
  - destruct (IH (Connection.handle_line JSON_parse line c)) as (Hs & Hd & Hn & Hl).
    rewrite Hs, Hd, Hn, Hl. clear IH Hs Hd Hn Hl.
    unfold Connection.handle_line.
    destruct (strlen line =? 0); [repeat split |].
    destruct (ClientPacket.fromRaw JSON_parse line) as [msg|e]; [repeat split |].
    unfold Connection.error_rethrow. destruct (Connection.destroyed c); repeat split.
Qed.

(** [feed] leaves the difficulty state alone, and the count of
    unacknowledged bytes as well unless it closes the connection. *)
Lemma feed_frame (data : jsstring) (c : Connection.t) :
  let c' := Connection.feed JSON_parse socket_write publicHost publicPort data c in
  same_difficulty c c' /\
  (Connection.destroyed c' = false ->
   Connection.drainSize c' = Connection.drainSize c).
Proof.
  intros c'. subst c'. unfold Connection.feed.
  cbn [Connection.recv Connection.set_recv].
  set (buf := Connection.recv c ++ data).
  destruct (strlen buf >=? 100000).
  - split; [| rewrite destroy_closed; discriminate].
    eapply same_difficulty_trans; [| apply same_difficulty_destroy].
    unfold Connection.error_too_much_data.
    destruct (Connection.destroyed _); repeat split.
  - destruct (test Connection.re_http buf).
    + unfold Connection.redirect.
      split; [| rewrite destroy_closed; discriminate].
      eapply same_difficulty_trans; [| apply same_difficulty_destroy].
      eapply same_difficulty_trans; [| apply same_difficulty_write].
      repeat split.
    + destruct (handle_lines_frame
                  (List.removelast (split Connection.re_nl (replace Connection.re_cr [] buf)))
                  (Connection.set_recv
                     (List.last (split Connection.re_nl (replace Connection.re_cr [] buf)) [])
                     (Connection.set_recv buf c))) as [Hs Hd].
      split; [exact Hd | intros _; exact Hs].
Qed.

(** [feed] on a destroyed connection: it stays destroyed, and only
    packets are handed to the listeners. *)
Lemma feed_closed (data : jsstring) (c : Connection.t) :
  Connection.destroyed c = true ->
  let c' := Connection.feed JSON_parse socket_write publicHost publicPort data c in
  Connection.destroyed c' = true /\
  exists evs, Connection.trace c' = Connection.trace c ++ evs /\ Forall quiet evs.
Proof.
  intros E c'. subst c'. unfold Connection.feed.
  cbn [Connection.recv Connection.set_recv].
  set (buf := Connection.recv c ++ data).
  destruct (strlen buf >=? 100000).
  - rewrite error_too_much_data_noop by exact E.
    rewrite destroy_noop by exact E.
    split; [exact E |]. exists []. rewrite app_nil_r. auto.
  - destruct (test Connection.re_http buf).
    + unfold Connection.redirect.
      rewrite write_noop by exact E. rewrite destroy_noop by exact E.
      split; [exact E |]. exists []. rewrite app_nil_r. auto.
    + destruct (handle_lines JSON_parse
                  (List.removelast (split Connection.re_nl (replace Connection.re_cr [] buf)))
                  (Connection.set_recv
                     (List.last (split Connection.re_nl (replace Connection.re_cr [] buf)) [])
                     (Connection.set_recv buf c))) as ((evs & Ht & Hf) & _ & Hd).
      rewrite Hd. split; [exact E |].
      exists evs. split; [exact Ht | apply line_event_quiet, Hf].
Qed.

Lemma steps_feed (data : jsstring) (c : Connection.t) :
  steps_to c (Connection.feed JSON_parse socket_write publicHost publicPort data c).
Proof.
  destruct (Connection.destroyed c) eqn:E.
  - destruct (feed_closed data c E) as [Hd Hev].
    split; [auto | split; [congruence | apply bounds_closed, Hd]].
  - destruct (feed_cases JSON_parse socket_write publicHost publicPort data c E)
      as [(_ & Ht & Hd & _)|[(_ & _ & Ht & Hd & _)|(Hlen & _ & (evs & Ht & Hf) & Hd & Hr)]].
    + split; [congruence | split; [| apply bounds_closed, Hd]].
      intros _.
      exists [Connection.EmitError
                (Connection.Formatted
                   (Connection.too_much_data
                      (Connection.set_recv (Connection.recv c ++ data) c)))].
      split; [constructor; [exact I | constructor] |].
      right. exists []. rewrite Ht, app_nil_r. auto.
    + split; [congruence | split; [| apply bounds_closed, Hd]].
      intros _.
      exists [Connection.SocketWrite (Connection.redirect_response publicHost publicPort)].
      split; [constructor; [exact I | constructor] |].
      right. exists []. rewrite Ht, app_nil_r. auto.
    + split; [congruence | split].
      * intros _. exists evs.
        split; [apply quiet_before_close, line_event_quiet, Hf | left; auto].
      * intros Hb _. destruct (Hb E) as (Hdr & _).
        destruct (feed_frame data c) as [_ Hs]. rewrite (Hs Hd), Hr.
        split; [exact Hdr | apply partial_line_bounds, Hlen].
Qed.

Lemma steps_send (json : value) (c : Connection.t) :
  steps_to c (Connection.send JSON_stringify socket_write json c).
Proof.
  unfold Connection.send. destruct (Connection.destroyed c);
    [apply steps_refl | apply steps_write].
Qed.

Lemma steps_sendJob (job : Job.t) (now : Z) (c : Connection.t) :
  steps_to c (Connection.sendJob JSON_stringify socket_write hashLeaf job now c).2.
Proof.
  unfold Connection.sendJob, Connection.sendDifficulty, Connection.sendMethod.
  destruct (negb (strict_eq (Connection.nextDifficulty c) (of_Z (-1)))).
  - cbn [Connection.nextDifficulty Connection.set_lastRetarget Connection.set_submissions].
    destruct (gt (Connection.nextDifficulty c) (of_Z 0)).
    + destruct (Job.toJSON hashLeaf job) as [payload|e]; cbn [snd].
      * eapply steps_trans; [| apply steps_send].
        eapply steps_trans; [| apply steps_same; reflexivity].
        eapply steps_trans; [| apply steps_send].
        apply steps_same; reflexivity.
      * eapply steps_trans; [| apply steps_same; reflexivity].
        eapply steps_trans; [| apply steps_send].
        apply steps_same; reflexivity.
    + cbn [snd]. apply steps_same; reflexivity.
  - destruct (Job.toJSON hashLeaf job) as [payload|e]; cbn [snd];
      [apply steps_send | apply steps_refl].
Qed.

(** Every call is a step. *)
Lemma exec_steps (k : call) (c : Connection.t) :
  steps_to c (exec JSON_parse JSON_stringify socket_write publicHost publicPort
                hashLeaf pm k c).
Proof.
  destruct k; cbn [exec].
  - apply steps_feed.
  - apply steps_emit. exact I.
  - apply steps_destroy.
  - split; [| split].
    + intros H. split; [exact H |]. exists []. rewrite app_nil_r. auto.
    + intros H. exists []. split; [constructor |]. left. rewrite app_nil_r. auto.
    + intros Hb Hl. destruct (Hb Hl) as (_ & Hr). split; [| exact Hr].
      unfold Connection.on_drain, DRAIN_LIMIT. cbn [Connection.drainSize Connection.set_drainSize].
      change (Z.shiftl 5 20) with 5242880. lia.
  - apply steps_destroy.
  - apply steps_write.
  - apply steps_send.
  - unfold Connection.error_rethrow. destruct (Connection.destroyed c) eqn:E;
      [apply steps_refl | apply steps_emit; exact I].
  - unfold Connection.redirect.
    eapply steps_trans; [apply steps_write | apply steps_destroy].
  - unfold Connection.addUser. destruct (decide _); cbn [snd];
      [apply steps_refl | apply steps_same; reflexivity].
  - apply steps_send.
  - apply steps_send.
  - apply steps_send.
  - unfold Connection.sendDifficulty. destruct (gt _ _); cbn [snd];
      [apply steps_send | apply steps_refl].
  - apply steps_same; reflexivity.
  - apply steps_sendJob.
  - destruct (retarget_outcomes pm max now c) as [[-> _]|[[-> _]|(x & -> & _)]];
      cbn [snd]; [apply steps_refl | apply steps_same; reflexivity
                 | apply steps_same; reflexivity].
Qed.

Lemma run_steps (calls : list call) :
  forall c : Connection.t,
    steps_to c (run JSON_parse JSON_stringify socket_write publicHost publicPort
                  hashLeaf pm calls c).
Proof.
  unfold run. induction calls as [|k calls IH]; intros c; simpl.
  - apply steps_refl.
  - eapply steps_trans; [apply exec_steps | apply IH].
Qed.

End CallFacts.

Section ReadyFacts.

Variable JSON_parse : jsstring -> option value.
Variable JSON_stringify : value -> jsstring.
Variable socket_write : list Connection.effect -> jsstring -> bool.
Variable publicHost : jsstring.
Variable publicPort : N.
Variable hashLeaf : Buffer -> Buffer.
Variable pm : Z.

Lemma gt_one_gt_zero (y : number) :
  gt y (of_Z 1) = true -> gt y (of_Z 0) = true.
Proof.
  unfold gt, SFltb.
  change (of_Z 1) with (S754_finite false 4503599627370496 (-52)).
  change (of_Z 0) with (S754_zero false).
  destruct y as [s|s| |s m e]; try destruct s; intros H;
    try discriminate H; reflexivity.
Qed.

Lemma positive_not_unset (d : number) :
  gt d (of_Z 0) = true -> strict_eq d (of_Z (-1)) = false.
Proof.
  unfold gt, strict_eq, SFltb, SFeqb.
  change (of_Z (-1)) with (S754_finite true 4503599627370496 (-52)).
  change (of_Z 0) with (S754_zero false).
  destruct d as [s|s| |s m e]; try destruct s; intros H;
    try discriminate H; reflexivity.
Qed.

Lemma Math_min_not_nan (a b : number) :
  a <> S754_nan -> b <> S754_nan -> Math_min a b <> S754_nan.
Proof.
  unfold Math_min. intros Ha Hb.
  destruct a as [sa|sa| |sa ma ea], b as [sb|sb| |sb mb eb];
    try congruence; try discriminate;
    match goal with |- context [if ?x then _ else _] => destruct x end; discriminate.
Qed.

Lemma capDifficulty_not_nan (max : number) :
  max <> S754_nan -> Connection.capDifficulty max <> S754_nan.
Proof.
  intros H. unfold Connection.capDifficulty.
  destruct (gt max Connection.UINT32_MAX); [apply of_Z_not_nan | exact H].
Qed.

(** What [retarget] stages under a ceiling that is a number is positive. *)
Lemma staged_positive (max : number) (x : Z) :
  max <> S754_nan ->
  gt (Math_max (of_Z 1) (Math_min (Connection.capDifficulty max) (of_Z x))) (of_Z 0) = true.
Proof.
  intros H.
  pose proof (Math_min_not_nan _ _ (capDifficulty_not_nan max H) (of_Z_not_nan x)) as Hm.
  set (y := Math_min (Connection.capDifficulty max) (of_Z x)) in *.
  assert (Hone : Math_max (of_Z 1) y = (if gt y (of_Z 1) then y else of_Z 1)).
  { destruct y; try congruence; reflexivity. }
  rewrite Hone. destruct (gt y (of_Z 1)) eqn:E; [apply gt_one_gt_zero, E | reflexivity].
Qed.

Lemma ready_same (c c' : Connection.t) :
  same_difficulty c c' -> ready c -> ready c'.
Proof. unfold ready. intros (-> & -> & ->). auto. Qed.

(** On a ready connection [sendJob] throws only what [job.toJSON()]
    throws, and with a clock that does not read -1 it keeps the
    connection ready. *)
Lemma sendJob_ready (job : Job.t) (now : Z) (c : Connection.t) :
  ready c ->
  let r := Connection.sendJob JSON_stringify socket_write hashLeaf job now c in
  (now <> -1 -> ready r.2) /\
  (r.1 = Ok tt \/ exists e, Job.toJSON hashLeaf job = Throw e /\ r.1 = Throw e).
Proof.
  intros (Hd & Hl & Hn) r. subst r.
  unfold Connection.sendJob, Connection.sendDifficulty, Connection.sendMethod.
  destruct (strict_eq (Connection.nextDifficulty c) (of_Z (-1))) eqn:Es;
    simpl negb; cbv iota.
  - destruct (Job.toJSON hashLeaf job) as [payload|e]; cbn [fst snd].
    + split; [| left; reflexivity]. intros _.
      eapply ready_same; [apply same_difficulty_send |]. repeat split; auto.
    + split; [intros _; repeat split; auto | right; eauto].
  - destruct Hn as [Hn|Hn]; [congruence |].
    cbn [Connection.nextDifficulty Connection.set_lastRetarget Connection.set_submissions].
    rewrite Hn.
    set (c0 := Connection.set_lastRetarget now (Connection.set_submissions 0 c)).
    set (c1 := Connection.send JSON_stringify socket_write _ c0).
    assert (H1 : same_difficulty c0 c1) by apply same_difficulty_send.
    destruct H1 as (_ & H1n & H1l).
    assert (Hflushed : now <> -1 ->
                       ready (Connection.set_nextDifficulty (of_Z (-1))
                                (Connection.set_difficulty (Connection.nextDifficulty c1) c1))).
    { intros Hnow. unfold ready.
      cbn [Connection.difficulty Connection.nextDifficulty Connection.lastRetarget
           Connection.set_nextDifficulty Connection.set_difficulty].
      rewrite H1n, H1l. subst c0.
      cbn [Connection.nextDifficulty Connection.lastRetarget
           Connection.set_lastRetarget Connection.set_submissions].
      split; [exact Hn | split; [exact Hnow | left; reflexivity]]. }
    destruct (Job.toJSON hashLeaf job) as [payload|e]; cbn [fst snd].
    + split; [| left; reflexivity]. intros Hnow.
      eapply ready_same; [apply same_difficulty_send | exact (Hflushed Hnow)].
    + split; [exact Hflushed | right; eauto].
Qed.

(** On a ready connection [retarget] returns, and under a ceiling that
    is a number it keeps the connection ready. *)
Lemma retarget_ready (max : number) (now : Z) (c : Connection.t) :
  ready c ->
  let r := Connection.retarget pm max now c in
  (max <> S754_nan -> ready r.2) /\ exists b, r.1 = Ok b.
Proof.
  intros (Hd & Hl & Hn) r. subst r.
  destruct (retarget_outcomes pm max now c) as [[_ [H|H]]|[[-> _]|(x & -> & _)]].
  - congruence.
  - contradiction.
  - cbn [fst snd]. split; [intros _; repeat split; auto | eauto].
  - cbn [fst snd]. split; [| eauto]. intros Hmax.
    split; [exact Hd | split; [exact Hl |]]. right.
    cbn [Connection.nextDifficulty Connection.setDifficulty Connection.set_nextDifficulty].
    apply staged_positive, Hmax.
Qed.

Lemma exec_ready (k : call) (c : Connection.t) :
  ready c -> sound k ->
  ready (exec JSON_parse JSON_stringify socket_write publicHost publicPort
           hashLeaf pm k c).
Proof.
  intros Hr Hk. destruct k; cbn [exec]; cbn [sound] in Hk.
  - eapply ready_same; [| exact Hr]. apply feed_frame.
  - eapply ready_same; [| exact Hr]. repeat split.
  - eapply ready_same; [| exact Hr]. apply same_difficulty_destroy.
  - eapply ready_same; [| exact Hr]. repeat split.
  - eapply ready_same; [| exact Hr]. apply same_difficulty_destroy.
  - eapply ready_same; [| exact Hr]. apply same_difficulty_write.
  - eapply ready_same; [| exact Hr]. apply same_difficulty_send.
  - eapply ready_same; [| exact Hr]. unfold Connection.error_rethrow.
    destruct (Connection.destroyed c); repeat split.
  - eapply ready_same; [| exact Hr]. unfold Connection.redirect.
    eapply same_difficulty_trans; [apply same_difficulty_write | apply same_difficulty_destroy].
  - eapply ready_same; [| exact Hr]. unfold Connection.addUser.
    destruct (decide _); repeat split.
  - eapply ready_same; [| exact Hr]. apply same_difficulty_send.
  - eapply ready_same; [| exact Hr]. apply same_difficulty_send.
  - eapply ready_same; [| exact Hr]. apply same_difficulty_send.
  - eapply ready_same; [| exact Hr]. unfold Connection.sendDifficulty.
    destruct (gt _ _); cbn [snd]; [apply same_difficulty_send | repeat split].
  - destruct Hr as (Hd & Hl & _). repeat split; auto.
  - apply (sendJob_ready job now c Hr), Hk.
  - apply (retarget_ready max now c Hr), Hk.
Qed.

Lemma run_ready (calls : list call) :
  forall c : Connection.t,
    ready c -> Forall sound calls ->
    ready (run JSON_parse JSON_stringify socket_write publicHost publicPort
             hashLeaf pm calls c).
Proof.
  unfold run. induction calls as [|k calls IH]; intros c Hr Hs; simpl.
  - exact Hr.
  - inversion Hs; subst. apply IH; [apply exec_ready |]; assumption.
Qed.

End ReadyFacts.

(** X12: a destroyed connection stays destroyed.  Whatever the socket
    and the server call on it afterwards, in any order (the four socket
    events and every public method modelled), the socket is not written
    to, nothing is destroyed a second time and "close" is not emitted
    again: the only further effects are packets and errors handed to the
    listeners. *)
Theorem destroyed_is_final
    (JSON_parse : jsstring -> option value) (JSON_stringify : value -> jsstring)
    (socket_write : list Connection.effect -> jsstring -> bool)
    (publicHost : jsstring) (publicPort : N) (hashLeaf : Buffer -> Buffer) (pm : Z)
    (calls : list call) (c : Connection.t) :
  Connection.destroyed c = true ->
  let c' := run JSON_parse JSON_stringify socket_write publicHost publicPort
              hashLeaf pm calls c in
  Connection.destroyed c' = true /\
  exists evs, Connection.trace c' = Connection.trace c ++ evs /\ Forall quiet evs.
Proof.
  intros H c'.
  destruct (run_steps JSON_parse JSON_stringify socket_write publicHost publicPort
              hashLeaf pm calls c) as (Hd & _).
  exact (Hd H).
Qed.

Lemma destroyed_is_final_witness :
  Connection.destroyed
    (run sample_parse sample_stringify socket_accepts (lit "pool.example") 3008
       (fun b => b) 20
       [Data subscribe_line; Write (lit "x"); Redirect; Destroy;
        SendJob sample_job 1561000200000]
       (Connection.destroy sample_connection)) = true.
Proof.
  apply (destroyed_is_final sample_parse sample_stringify socket_accepts
           (lit "pool.example") 3008 (fun b => b) 20
           [Data subscribe_line; Write (lit "x"); Redirect; Destroy;
            SendJob sample_job 1561000200000]
           (Connection.destroy sample_connection)).
  reflexivity.
Defined.

(** X13: a connection closes at most once.  Over any sequence of calls
    on a connection that is not destroyed, everything done while it
    lives is a write to the socket or an event for the listeners; if it
    ends up destroyed, the lock, the socket and the "close" event were
    dealt with once, in that order, and after that only listeners are
    spoken to. *)
Theorem closes_at_most_once
    (JSON_parse : jsstring -> option value) (JSON_stringify : value -> jsstring)
    (socket_write : list Connection.effect -> jsstring -> bool)
    (publicHost : jsstring) (publicPort : N) (hashLeaf : Buffer -> Buffer) (pm : Z)
    (calls : list call) (c : Connection.t) :
  Connection.destroyed c = false ->
  let c' := run JSON_parse JSON_stringify socket_write publicHost publicPort
              hashLeaf pm calls c in
  exists evs,
    Forall before_close evs /\
    (Connection.destroyed c' = false /\ Connection.trace c' = Connection.trace c ++ evs
     \/ exists post,
          Connection.destroyed c' = true /\
          Connection.trace c' = Connection.trace c ++ evs ++ closing ++ post /\
          Forall quiet post).
Proof.
  intros H c'.
  destruct (run_steps JSON_parse JSON_stringify socket_write publicHost publicPort
              hashLeaf pm calls c) as (_ & Hl & _).
  exact (Hl H).
Qed.

Lemma closes_at_most_once_witness :
  exists evs,
    Forall before_close evs /\
    (Connection.destroyed
       (run sample_parse sample_stringify socket_accepts (lit "pool.example") 3008
          (fun b => b) 20
          [Data subscribe_line; Data http_probe; Data authorize_line; Destroy]
          sample_connection) = false
     /\ Connection.trace
          (run sample_parse sample_stringify socket_accepts (lit "pool.example") 3008
             (fun b => b) 20
             [Data subscribe_line; Data http_probe; Data authorize_line; Destroy]
             sample_connection)
        = Connection.trace sample_connection ++ evs
     \/ exists post,
          Connection.destroyed
            (run sample_parse sample_stringify socket_accepts (lit "pool.example") 3008
               (fun b => b) 20
               [Data subscribe_line; Data http_probe; Data authorize_line; Destroy]
               sample_connection) = true /\
          Connection.trace
            (run sample_parse sample_stringify socket_accepts (lit "pool.example") 3008
               (fun b => b) 20
               [Data subscribe_line; Data http_probe; Data authorize_line; Destroy]
               sample_connection)
          = Connection.trace sample_connection ++ evs ++ closing ++ post /\
          Forall quiet post).
Proof.
  apply (closes_at_most_once sample_parse sample_stringify socket_accepts
           (lit "pool.example") 3008 (fun b => b) 20
           [Data subscribe_line; Data http_probe; Data authorize_line; Destroy]
           sample_connection).
  reflexivity.
Defined.

(** X14: the bounds of a living connection are an invariant.  If the
    count of unacknowledged bytes is within the drain limit [5 << 20]
    and the buffered text is shorter than 100,000 code units and holds
    no line terminator, then the same is true after any sequence of
    calls that leaves the connection alive. *)
Theorem bounds_are_kept
    (JSON_parse : jsstring -> option value) (JSON_stringify : value -> jsstring)
    (socket_write : list Connection.effect -> jsstring -> bool)
    (publicHost : jsstring) (publicPort : N) (hashLeaf : Buffer -> Buffer) (pm : Z)
    (calls : list call) (c : Connection.t) :
  (0 <= Connection.drainSize c <= DRAIN_LIMIT /\
   strlen (Connection.recv c) < 100000 /\
   Forall (fun u => ~ terminator u) (Connection.recv c)) ->
  let c' := run JSON_parse JSON_stringify socket_write publicHost publicPort
              hashLeaf pm calls c in
  Connection.destroyed c' = false ->
  0 <= Connection.drainSize c' <= DRAIN_LIMIT /\
  strlen (Connection.recv c') < 100000 /\
  Forall (fun u => ~ terminator u) (Connection.recv c').
Proof.
  intros H c'.
  destruct (run_steps JSON_parse JSON_stringify socket_write publicHost publicPort
              hashLeaf pm calls c) as (_ & _ & Hb).
  apply Hb. intros _. exact H.
Qed.

Lemma bounds_are_kept_witness :
  0 <= Connection.drainSize
         (run sample_parse sample_stringify socket_pushes_back (lit "pool.example") 3008
            (fun b => b) 20
            [Data subscribe_line; SendMethod (lit "mining.notify") []; Data (lit "{")]
            (Connection.new (lit "203.0.113.7")))
    <= DRAIN_LIMIT /\
  strlen (Connection.recv
            (run sample_parse sample_stringify socket_pushes_back (lit "pool.example") 3008
               (fun b => b) 20
               [Data subscribe_line; SendMethod (lit "mining.notify") []; Data (lit "{")]
               (Connection.new (lit "203.0.113.7")))) < 100000 /\
  Forall (fun u => ~ terminator u)
    (Connection.recv
       (run sample_parse sample_stringify socket_pushes_back (lit "pool.example") 3008
          (fun b => b) 20
          [Data subscribe_line; SendMethod (lit "mining.notify") []; Data (lit "{")]
          (Connection.new (lit "203.0.113.7")))).
Proof.
  apply (bounds_are_kept sample_parse sample_stringify socket_pushes_back
           (lit "pool.example") 3008 (fun b => b) 20
           [Data subscribe_line; SendMethod (lit "mining.notify") []; Data (lit "{")]
           (Connection.new (lit "203.0.113.7"))).
  - split; [split; [reflexivity | discriminate] | split; [reflexivity | constructor]].
  - reflexivity.
Defined.

(** X15: once a first difficulty was delivered the assertions of the
    difficulty methods do not fire.  Take a connection whose current
    difficulty is positive, whose retarget clock is set and whose
    pending slot is empty or positive, and any sequence of calls in
    which [setDifficulty] and [sendDifficulty] get a positive number,
    [retarget] a ceiling that is a number, and [sendJob] a clock that
    does not read -1.  Afterwards the connection is in such a state
    again; [retarget] returns, with any ceiling; and [sendJob] returns
    unless [job.toJSON()] throws, in which case it throws the same. *)
Theorem ready_is_kept
    (JSON_parse : jsstring -> option value) (JSON_stringify : value -> jsstring)
    (socket_write : list Connection.effect -> jsstring -> bool)
    (publicHost : jsstring) (publicPort : N) (hashLeaf : Buffer -> Buffer) (pm : Z)
    (calls : list call) (c : Connection.t) :
  ready c ->
  Forall sound calls ->
  let c' := run JSON_parse JSON_stringify socket_write publicHost publicPort
              hashLeaf pm calls c in
  ready c' /\
  (forall max now, exists b, (Connection.retarget pm max now c').1 = Ok b) /\
  (forall job now,
      let r := Connection.sendJob JSON_stringify socket_write hashLeaf job now c' in
      r.1 = Ok tt \/ exists e, Job.toJSON hashLeaf job = Throw e /\ r.1 = Throw e).
Proof.
  intros Hr Hs c'.
  pose proof (run_ready JSON_parse JSON_stringify socket_write publicHost publicPort
                hashLeaf pm calls c Hr Hs) as H.
  fold c' in H. split; [exact H | split].
  - intros max now. apply (retarget_ready pm max now c' H).
  - intros job now. apply (sendJob_ready JSON_stringify socket_write hashLeaf job now c' H).
Qed.

Lemma ready_is_kept_witness :
  ready
    (run sample_parse sample_stringify socket_accepts (lit "pool.example") 3008
       (fun b => b) 20
       [SetDifficulty (of_Z 38); SendJob sample_job 1561000200000;
        Retarget (of_Z 1000) 1561000203000; Data subscribe_line]
       sample_connection).
Proof.
  apply (ready_is_kept sample_parse sample_stringify socket_accepts
           (lit "pool.example") 3008 (fun b => b) 20
           [SetDifficulty (of_Z 38); SendJob sample_job 1561000200000;
            Retarget (of_Z 1000) 1561000203000; Data subscribe_line]
           sample_connection).
  - split; [reflexivity | split; [discriminate | left; reflexivity]].
  - repeat constructor; [discriminate | apply of_Z_not_nan].
Defined.

(* ===================================================================== *)
(** ** The lines of a stream *)
(* ===================================================================== *)

Section LineFacts.

Variable JSON_parse : jsstring -> option value.
Variable f : jsstring -> list Connection.effect.
Hypothesis f_empty : f [] = [].

Lemma removelast_cons_nonempty {A} (x : A) (l : list A) :
  l <> [] -> List.removelast (x :: l) = x :: List.removelast l.
Proof. destruct l; [contradiction | reflexivity]. Qed.

Lemma lines_from_skip (s : jsstring) :
  flat_map f (lines_from [] (skip 10 s)) = flat_map f (lines_from [] s).
Proof.
  induction s as [|c s IH]; [reflexivity |]. cbn [skip lines_from].
  destruct (c =? 10)%N eqn:E.
  - cbn [flat_map]. rewrite f_empty. exact IH.
  - cbn [lines_from]. rewrite E. reflexivity.
Qed.

(** Splitting on [/\n+/] and dropping the last piece gives the complete
    lines, up to empty ones. *)
Lemma split_go_lines (fuel : nat) :
  forall piece s : jsstring,
    (length s < fuel)%nat ->
    flat_map f (List.removelast (split_go fuel (re_body Connection.re_nl) piece s))
    = flat_map f (lines_from piece s).
Proof.
  induction fuel as [|fuel IH]; intros piece s Hlen; [lia |].
  destruct s as [|c s]; [reflexivity |].
  cbn [split_go lines_from]. change (re_body Connection.re_nl) with [Plus (exactly 10)].
  rewrite match_plus. simpl in Hlen.
  change [Plus (exactly 10)] with (re_body Connection.re_nl).
  destruct (c =? 10)%N eqn:E.
  - pose proof (skip_length 10 s) as Hs.
    destruct (Nat.eqb_spec (length (skip 10 s)) (length (c :: s))) as [H|_];
      [simpl in H; lia |].
    cbn [andb]. rewrite removelast_cons_nonempty by apply split_go_nonempty.
    cbn [flat_map]. rewrite IH by lia. rewrite lines_from_skip. reflexivity.
  - apply IH. lia.
Qed.

Lemma split_lines (s : jsstring) :
  flat_map f (List.removelast (split Connection.re_nl s))
  = flat_map f (complete_lines s).
Proof.
  unfold split, complete_lines.
  change (match_here (re_body Connection.re_nl) []) with (@None jsstring).
  assert (H : flat_map f (List.removelast
                            (split_go (2 * length s + 2) (re_body Connection.re_nl) [] s))
              = flat_map f (lines_from [] s)) by (apply split_go_lines; lia).
  destruct s; exact H.
Qed.

End LineFacts.

Section HandleFacts.

Variable JSON_parse : jsstring -> option value.

Lemma handle_line_live (line : jsstring) (c : Connection.t) :
  Connection.destroyed c = false ->
  let c' := Connection.handle_line JSON_parse line c in
  Connection.destroyed c' = false /\
  Connection.id c' = Connection.id c /\
  Connection.trace c'
  = Connection.trace c ++ line_effects JSON_parse (Connection.id c) line.
Proof.
  intros Hl c'. subst c'. unfold Connection.handle_line, line_effects.
  destruct line as [|ch line].
  - change (strlen [] =? 0) with true. cbv iota. rewrite app_nil_r. auto.
  - change (strlen (ch :: line) =? 0) with false. cbv iota.
    destruct (ClientPacket.fromRaw JSON_parse (ch :: line)) as [msg|e].
    + repeat split. exact Hl.
    + unfold Connection.error_rethrow. rewrite Hl. repeat split. exact Hl.
Qed.

Lemma handle_lines_trace (lines : list jsstring) :
  forall c : Connection.t,
    Connection.destroyed c = false ->
    Connection.trace
      (fold_left (fun c line => Connection.handle_line JSON_parse line c) lines c)
    = Connection.trace c ++ flat_map (line_effects JSON_parse (Connection.id c)) lines.
Proof.
  induction lines as [|line lines IH]; intros c Hl; cbn [fold_left flat_map].
  - rewrite app_nil_r. reflexivity.
  - destruct (handle_line_live line c Hl) as (H1 & H2 & H3).
    rewrite IH by exact H1. rewrite H2, H3, <- app_assoc. reflexivity.
Qed.

End HandleFacts.

(** X16: [feed] handles a stream line by line.  On a connection that
    is not destroyed, when the buffered text (what was retained plus
    what arrived) is below the cap and does not mention HTTP/1.1, the
    listeners get, in order, one event for each non-empty complete line
    of the text with its carriage returns dropped: the packet if the
    line parses, else the exception, with the id of the connection
    appended, and the lines after it are still handled.  The partial
    line after the last newline is retained and the connection stays
    alive. *)
Theorem feed_line_by_line
    (JSON_parse : jsstring -> option value)
    (socket_write : list Connection.effect -> jsstring -> bool)
    (publicHost : jsstring) (publicPort : N)
    (data : jsstring) (c : Connection.t) :
  Connection.destroyed c = false ->
  strlen (Connection.recv c ++ data) < 100000 ->
  ~ Design.mentions_http (Connection.recv c ++ data) ->
  let text := Design.strip_cr (Connection.recv c ++ data) in
  let c' := Connection.feed JSON_parse socket_write publicHost publicPort data c in
  Connection.trace c'
  = Connection.trace c
    ++ flat_map (line_effects JSON_parse (Connection.id c)) (complete_lines text) /\
  Connection.recv c' = Design.partial_line text /\
  Connection.destroyed c' = false.
Proof.
  intros Hlive Hlen Hhttp text c'.
  destruct (feed_cases JSON_parse socket_write publicHost publicPort data c Hlive)
    as [(Hbig & _)|[(_ & Hm & _)|(_ & _ & _ & Hd & Hr)]]; [lia | contradiction |].
  split; [| split; [exact Hr | exact Hd]].
  subst c'. unfold Connection.feed. cbn [Connection.recv Connection.set_recv].
  destruct (Z.geb_spec (strlen (Connection.recv c ++ data)) 100000) as [|_]; [lia |].
  destruct (test Connection.re_http (Connection.recv c ++ data)) eqn:Et;
    [apply test_http in Et; contradiction |].
  rewrite handle_lines_trace by exact Hlive.
  cbn [Connection.trace Connection.set_recv]. f_equal.
  rewrite replace_cr. fold text.
  change (Connection.id (Connection.set_recv _ (Connection.set_recv _ c)))
    with (Connection.id c).
  apply split_lines. reflexivity.
Qed.

Lemma feed_line_by_line_witness :
  Connection.trace
    (Connection.feed sample_parse socket_accepts (lit "pool.example") 3008
       sample_stream sample_connection)
  = [Connection.EmitPacket subscribe_packet;
     Connection.EmitError
       (Connection.Rethrown SyntaxError (lit " (203.0.113.7)"))] /\
  Connection.recv
    (Connection.feed sample_parse socket_accepts (lit "pool.example") 3008
       sample_stream sample_connection)
  = lit "{".
Proof.
  destruct (feed_line_by_line sample_parse socket_accepts (lit "pool.example") 3008
              sample_stream sample_connection) as (Ht & Hr & _).
  - reflexivity.
  - reflexivity.
  - intros H. apply test_http in H. discriminate H.
  - split; [exact Ht | exact Hr].
Defined.

(** X17: no value is a session id for [util.isSID].  It asks for a
    string of eight code units that [util.isHex] accepts, and [isHex]
    accepts no string of more than one code unit, and none of an odd
    length. *)
Theorem isSID_never_holds (sid : value) : util.isSID sid = false.
Proof.
  unfold util.isSID. destruct sid; try reflexivity.
  rewrite isHex_false. apply andb_false_r.
Qed.
